(** * Acceso API: job processing, delivery and admission control

    A shallow embedding of the asynchronous core of the Acceso API
    (rate limiter and route limiters, cache and list queues, provider
    pool, proof queue and direct proofs, workflow engine and its queue,
    webhook delivery) together with the properties stated about it.

    Conventions used throughout:
    - JavaScript numbers that the code handles are integral (millisecond
      clocks, counters, HTTP statuses); they are embedded as [Z].
    - A function that may [throw] returns a [Result].
    - Code that talks to an external collaborator (Redis, the database,
      HTTP peers, the prover) threads an explicit world value; what the
      collaborator answers is an input of the model.
    - The database and the logger do not fail: a statement on a row that
      exists updates it, on a row that does not it changes nothing. *)

From Stdlib Require Import ZArith Lia Ascii String.
From stdpp Require Import base option list strings gmap fin_maps pretty.

Local Open Scope string_scope.
Local Open Scope list_scope.
Local Open Scope Z_scope.

(** ** Results of computations that may throw *)

Inductive Result (A : Type) : Type :=
| Ok (a : A)
| Throw (message : string).
Arguments Ok {A} a.
Arguments Throw {A} message.

(** * utils/cache.js: the sliding window limiter over a Redis sorted set *)

Module Redis.

(** A sorted set maps each member to its score; a key may carry a time
    to live, stored as the absolute instant (ms) at which it lapses. *)
Record ZSet : Type := mkZSet {
  members : gmap string Z;
  expireAt : option Z
}.

(** The client as the code sees it: a connection that is reachable or
    not, and the key space behind it. *)
Record Conn : Type := mkConn {
  up : bool;
  db : gmap string ZSet
}.

Definition lapsed (now : Z) (e : ZSet) : bool :=
  match expireAt e with
  | Some t => bool_decide (t ≤ now)
  | None => false
  end.

(** Every command below takes the instant at which it runs. Keys whose
    time to live has run out are invisible to every command. *)
Definition live (now : Z) (d : gmap string ZSet) (key : string) : option ZSet :=
  match d !! key with
  | Some e => if lapsed now e then None else Some e
  | None => None
  end.

Definition inRange (lo hi : Z) (p : string * Z) : Prop := lo ≤ p.2 ∧ p.2 ≤ hi.

Definition unreachable : string := "Connection is closed.".

(** ZREMRANGEBYSCORE key lo hi: drops the members with lo <= score <= hi
    and answers how many went; a sorted set left empty ceases to exist. *)
Definition zremrangebyscore (now : Z) (key : string) (lo hi : Z) (c : Conn)
  : Result Z * Conn :=
  if up c then
    match live now (db c) key with
    | None => (Ok 0, c)
    | Some e =>
        let kept := filter (λ p, ¬ inRange lo hi p) (members e) in
        let removed := Z.of_nat (size (members e)) - Z.of_nat (size kept) in
        if bool_decide (kept = ∅)
        then (Ok removed, mkConn (up c) (delete key (db c)))
        else (Ok removed, mkConn (up c) (<[key := mkZSet kept (expireAt e)]> (db c)))
    end
  else (Throw unreachable, c).

(** ZCARD key *)
Definition zcard (now : Z) (key : string) (c : Conn) : Result Z * Conn :=
  if up c then
    match live now (db c) key with
    | None => (Ok 0, c)
    | Some e => (Ok (Z.of_nat (size (members e))), c)
    end
  else (Throw unreachable, c).

(** ZADD key score member: a member already present only changes score. *)
Definition zadd (now : Z) (key : string) (score : Z) (member : string) (c : Conn)
  : Result Z * Conn :=
  if up c then
    match live now (db c) key with
    | None =>
        (Ok 1, mkConn (up c) (<[key := mkZSet {[member := score]} None]> (db c)))
    | Some e =>
        let added := match members e !! member with Some _ => 0 | None => 1 end in
        (Ok added,
         mkConn (up c)
           (<[key := mkZSet (<[member := score]> (members e)) (expireAt e)]> (db c)))
    end
  else (Throw unreachable, c).

(** EXPIRE key seconds *)
Definition expire (now : Z) (key : string) (seconds : Z) (c : Conn)
  : Result Z * Conn :=
  if up c then
    match live now (db c) key with
    | None => (Ok 0, c)
    | Some e =>
        (Ok 1,
         mkConn (up c)
           (<[key := mkZSet (members e) (Some (now + seconds * 1000))]> (db c)))
    end
  else (Throw unreachable, c).

End Redis.

Module RateLimit.
Import Redis.

Record Limit : Type := mkLimit {
  allowed : bool;
  remaining : Z;
  reset : Z
}.

(** The member recorded for a request: [`${now}-${Math.random()}`], where
    [rnd] is the text the random draw prints as. *)
Definition memberOf (now : Z) (rnd : string) : string :=
  pretty now +:+ "-" +:+ rnd.

(** What the [catch] branch answers. *)
Definition failOpen (maxRequests windowSeconds : Z) : Limit :=
  mkLimit true maxRequests windowSeconds.

(** One request of a caller: the clock reading taken on entry and the
    random draw, with the arguments of [checkRateLimit]. *)
Record Call : Type := mkCall {
  now : Z;
  rnd : string;
  key : string;
  maxRequests : Z;
  windowSeconds : Z
}.

(** [checkRateLimit(key, maxRequests, windowSeconds)], run with nothing
    else touching the connection between its commands, which all carry
    the clock reading taken on entry. *)
Definition checkRateLimit (q : Call) (c : Conn) : Limit * Conn :=
  let windowStart := now q - windowSeconds q * 1000 in
  match zremrangebyscore (now q) (key q) 0 windowStart c with
  | (Throw _, c1) => (failOpen (maxRequests q) (windowSeconds q), c1)
  | (Ok _, c1) =>
      match zcard (now q) (key q) c1 with
      | (Throw _, c2) => (failOpen (maxRequests q) (windowSeconds q), c2)
      | (Ok count, c2) =>
          if bool_decide (maxRequests q ≤ count)
          then (mkLimit false 0 (windowSeconds q), c2)
          else
            match zadd (now q) (key q) (now q) (memberOf (now q) (rnd q)) c2 with
            | (Throw _, c3) => (failOpen (maxRequests q) (windowSeconds q), c3)
            | (Ok _, c3) =>
                match expire (now q) (key q) (windowSeconds q) c3 with
                | (Throw _, c4) => (failOpen (maxRequests q) (windowSeconds q), c4)
                | (Ok _, c4) =>
                    (mkLimit true (maxRequests q - count - 1) (windowSeconds q), c4)
                end
            end
      end
  end.

(** Requests served one after the other. *)
Fixpoint serve (qs : list Call) (c : Conn) : list Limit * Conn :=
  match qs with
  | [] => ([], c)
  | q :: rest =>
      let '(l, c1) := checkRateLimit q c in
      let '(ls, c2) := serve rest c1 in
      (l :: ls, c2)
  end.

(** *** The same function, one awaited command at a time

    Every [await redis.…] hands control back to the event loop, so two
    requests in flight take turns command by command. *)
Inductive Pc : Type :=
| AtPrune
| AtCount
| AtAdd (count : Z)
| AtExpire (count : Z)
| Returned (l : Limit).

Definition step (q : Call) (pc : Pc) (c : Conn) : Pc * Conn :=
  let caught := Returned (failOpen (maxRequests q) (windowSeconds q)) in
  match pc with
  | AtPrune =>
      match zremrangebyscore (now q) (key q) 0 (now q - windowSeconds q * 1000) c with
      | (Ok _, c1) => (AtCount, c1)
      | (Throw _, c1) => (caught, c1)
      end
  | AtCount =>
      match zcard (now q) (key q) c with
      | (Ok count, c1) =>
          if bool_decide (maxRequests q ≤ count)
          then (Returned (mkLimit false 0 (windowSeconds q)), c1)
          else (AtAdd count, c1)
      | (Throw _, c1) => (caught, c1)
      end
  | AtAdd count =>
      match zadd (now q) (key q) (now q) (memberOf (now q) (rnd q)) c with
      | (Ok _, c1) => (AtExpire count, c1)
      | (Throw _, c1) => (caught, c1)
      end
  | AtExpire count =>
      match expire (now q) (key q) (windowSeconds q) c with
      | (Ok _, c1) =>
          (Returned (mkLimit true (maxRequests q - count - 1) (windowSeconds q)), c1)
      | (Throw _, c1) => (caught, c1)
      end
  | Returned l => (Returned l, c)
  end.

(** Two requests in flight; the schedule says whose command runs next
    ([false]: the first request, [true]: the second). *)
Fixpoint interleave (q1 q2 : Call) (schedule : list bool)
    (pc1 pc2 : Pc) (c : Conn) : Pc * Pc * Conn :=
  match schedule with
  | [] => (pc1, pc2, c)
  | false :: rest =>
      let '(pc1', c') := step q1 pc1 c in interleave q1 q2 rest pc1' pc2 c'
  | true :: rest =>
      let '(pc2', c') := step q2 pc2 c in interleave q1 q2 rest pc1 pc2' c'
  end.

Definition finished (pc : Pc) : option Limit :=
  match pc with Returned l => Some l | _ => None end.

(** *** Vocabulary for the window properties *)
Section Window.
Variables (k : string) (n W : Z).

Definition call (t : Z) (r : string) : Call := mkCall t r k n W.

(** Nothing recorded under the key is younger than the window at [t]. *)
Definition quiet (t : Z) (c : Conn) : Prop :=
  ∀ e, live t (db c) k = Some e →
    map_Forall (λ _ s, 0 ≤ s ∧ s ≤ t - W * 1000) (members e).

(** The key holds one entry per member of [seen], none older than
    [first], and lapses one window after [last]. *)
Definition tracking (seen : list string) (first last : Z) (c : Conn) : Prop :=
  up c = true ∧ first ≤ last ∧
  ∃ M, db c !! k = Some (mkZSet M (Some (last + W * 1000)))
     ∧ size M = length seen
     ∧ map_Forall (λ m s, m ∈ seen ∧ first ≤ s) M.
End Window.

End RateLimit.

(** * middleware/rateLimit.js: limiters for single routes *)

Module Middleware.
Import Redis RateLimit.

(** What the limiter reads of a request: [req.path],
    [req.user?.apiKeyId] and [req.ip] *)
Record Request : Type := mkRequest {
  path : string;
  apiKeyId : option string;
  ip : string
}.

(** The headers set on the response *)
Record Headers : Type := mkHeaders {
  limitHeader : Z;            (** X-RateLimit-Limit *)
  remainingHeader : Z;        (** X-RateLimit-Remaining *)
  resetHeader : Z;            (** X-RateLimit-Reset *)
  retryAfter : option Z       (** Retry-After *)
}.

(** [next()], or [errorResponse(res, code, message, status)] *)
Inductive Outcome : Type :=
| Next (headers : Headers)
| Refused (code : string) (message : string) (status : Z) (headers : Headers).

(** [req.user?.apiKeyId || req.ip] *)
Definition caller (req : Request) : string :=
  match apiKeyId req with
  | Some k => if String.eqb k EmptyString then ip req else k
  | None => ip req
  end.

Section Custom.
(** [ERROR_CODES.RATE_LIMIT_EXCEEDED] and [HTTP_STATUS.TOO_MANY_REQUESTS] *)
Variable RATE_LIMIT_EXCEEDED : string.
Variable TOO_MANY_REQUESTS : Z.

(** The middleware that [createRateLimiter(maxRequests, windowSeconds)]
    returns, on a request; [now] and [rnd] are the clock reading and the
    random draw of the check, [later] the clock reading taken for the
    reset header. ([checkRateLimit] catches its own errors, so the
    [catch] of the middleware has nothing of the limiter's to catch.) *)
Definition createRateLimiter (maxRequests windowSeconds : Z)
    (req : Request) (now : Z) (rnd : string) (later : Z) (c : Conn)
  : Outcome * Conn :=
  let key := "ratelimit:custom:" +:+ path req +:+ ":" +:+ caller req in
  let '(result, c1) :=
    checkRateLimit (mkCall now rnd key maxRequests windowSeconds) c in
  let headers :=
    mkHeaders maxRequests (Z.max 0 (remaining result))
      (later `div` 1000 + windowSeconds) None in
  if negb (allowed result)
  then (Refused RATE_LIMIT_EXCEEDED "Rate limit exceeded for this endpoint"
          TOO_MANY_REQUESTS
          (mkHeaders (limitHeader headers) (remainingHeader headers)
             (resetHeader headers) (Some windowSeconds)),
        c1)
  else (Next headers, c1).

(** [strictRateLimit] and [sensitiveRateLimit] *)
Definition strictRateLimit := createRateLimiter 10 60.
Definition sensitiveRateLimit := createRateLimiter 5 300.
End Custom.

End Middleware.

(** * JavaScript values as the workflow engine meets them *)

Module Js.

Local Unset Elimination Schemes.

(** Trigger data, action configs and persisted results are JSON; a
    lookup that finds nothing yields [undefined]. Numbers are integral
    (see the conventions above). An object is its list of own
    properties, each key once. A lookup can also leave the data and
    reach a function or an object of the engine's own through a
    prototype ([{}.constructor], [(5).toFixed], [{}.__proto__]): a
    native, known by the name the engine gives it. *)
Inductive JsValue : Type :=
| JUndefined
| JNull
| JBool (b : bool)
| JNum (z : Z)
| JStr (s : string)
| JArr (items : list JsValue)
| JObj (props : list (string * JsValue))
| JNative (name : string).
Local Set Elimination Schemes.

(** What the engine itself supplies: the numeric reading of a string
    ([None] is NaN), its reading as a BigInt ([None] is a SyntaxError),
    the ISO rendering of an instant, and its built-in objects: what the
    prototype chain of a value (or a native itself) holds under a key
    that the value does not own ([undefined] when it holds nothing),
    the text [String] makes of a native and what [JSON.stringify] keeps
    of it ([undefined] for a function). One native has one name. *)
Class JsEngine : Type := {
  StringToNumber : string → option Z;
  StringToBigInt : string → option Z;
  toISOString : Z → string;
  inherited : JsValue → string → JsValue;
  nativeToString : string → string;
  nativeToJSON : string → JsValue
}.

Definition truthy (v : JsValue) : bool :=
  match v with
  | JUndefined | JNull => false
  | JBool b => b
  | JNum z => negb (z =? 0)
  | JStr s => negb (String.eqb s EmptyString)
  | JArr _ | JObj _ | JNative _ => true
  end.

(** [a || b] *)
Definition orElse (a b : JsValue) : JsValue := if truthy a then a else b.

Fixpoint own (props : list (string * JsValue)) (key : string) : JsValue :=
  match props with
  | [] => JUndefined
  | (k, v) :: rest => if String.eqb k key then v else own rest key
  end.

(** Whether [key] is among the own properties *)
Definition owns (props : list (string * JsValue)) (key : string) : bool :=
  existsb (λ p, String.eqb p.1 key) props.

(** The property names of [Object.prototype], which every plain object
    inherits. (The other built-in prototypes grow with the language
    edition; the engine answers for them.) *)
Definition objectPrototype : list string :=
  ["constructor"; "hasOwnProperty"; "isPrototypeOf"; "propertyIsEnumerable";
   "toLocaleString"; "toString"; "valueOf"; "__proto__";
   "__defineGetter__"; "__defineSetter__"; "__lookupGetter__"; "__lookupSetter__"].

(** The position a property key denotes in a sequence of length [len]:
    the position whose decimal rendering is the key. *)
Definition indexOf (len : nat) (key : string) : option nat :=
  fst <$> list_find (λ i, pretty i = key) (seq 0 len).

Fixpoint chars (s : string) : list string :=
  match s with
  | EmptyString => []
  | String a rest => String a EmptyString :: chars rest
  end.

Section Language.
Context `{JsEngine}.

(** [current?.[key]]: an own property of the data first (the length and
    the positions of a string or an array, the properties of an
    object), then the prototype chain. *)
Definition getProp (current : JsValue) (key : string) : JsValue :=
  match current with
  | JUndefined | JNull => JUndefined
  | JBool _ | JNum _ | JNative _ => inherited current key
  | JStr s =>
      if String.eqb key "length" then JNum (Z.of_nat (String.length s))
      else match indexOf (String.length s) key with
           | Some i => default JUndefined (JStr <$> chars s !! i)
           | None => inherited current key
           end
  | JArr items =>
      if String.eqb key "length" then JNum (Z.of_nat (length items))
      else match indexOf (length items) key with
           | Some i => default JUndefined (items !! i)
           | None => inherited current key
           end
  | JObj props =>
      if owns props key then own props key
      else if existsb (String.eqb key) objectPrototype then inherited current key
      else JUndefined
  end.

(** [path.split('.')]: always at least one segment. *)
Fixpoint split (sep : Ascii.ascii) (s : string) : list string :=
  match s with
  | EmptyString => [EmptyString]
  | String a rest =>
      if Ascii.eqb a sep then EmptyString :: split sep rest
      else match split sep rest with
           | [] => [String a EmptyString]
           | seg :: segs => String a seg :: segs
           end
  end.

Fixpoint join (sep : string) (parts : list string) : string :=
  match parts with
  | [] => EmptyString
  | [p] => p
  | p :: rest => p +:+ sep +:+ join sep rest
  end.

(** [String(v)] *)
Fixpoint toString (v : JsValue) : string :=
  match v with
  | JUndefined => "undefined"
  | JNull => "null"
  | JBool true => "true"
  | JBool false => "false"
  | JNum z => pretty z
  | JStr s => s
  | JArr items =>
      join "," (map (λ x, match x with
                          | JUndefined | JNull => EmptyString
                          | _ => toString x
                          end) items)
  | JObj _ => "[object Object]"
  | JNative name => nativeToString name
  end.

(** [hay.includes(needle)] on strings *)
Fixpoint includes (needle hay : string) : bool :=
  String.prefix needle hay ||
  match hay with
  | EmptyString => false
  | String _ rest => includes needle rest
  end.

(** [a === b]: objects and arrays are equal only to themselves, and two
    values read from separately parsed JSON never are the same object;
    a native is itself wherever it is reached from. *)
Definition strictEq (a b : JsValue) : bool :=
  match a, b with
  | JUndefined, JUndefined => true
  | JNull, JNull => true
  | JBool x, JBool y => Bool.eqb x y
  | JNum x, JNum y => x =? y
  | JStr x, JStr y => String.eqb x y
  | JNative x, JNative y => String.eqb x y
  | _, _ => false
  end.

(** ToPrimitive with hint number: the built-in [valueOf] of an array,
    an object or a function gives no primitive, [toString] does. *)
Definition toPrimitive (v : JsValue) : JsValue :=
  match v with
  | JArr _ | JObj _ | JNative _ => JStr (toString v)
  | _ => v
  end.

(** ToNumber of a primitive; [None] is NaN. *)
Definition toNumber (v : JsValue) : option Z :=
  match v with
  | JUndefined => None
  | JNull => Some 0
  | JBool true => Some 1
  | JBool false => Some 0
  | JNum z => Some z
  | JStr s => StringToNumber s
  | JArr _ | JObj _ | JNative _ => None
  end.

(** [a < b]: two strings compare by code units, anything else
    numerically, and a comparison with NaN is false. *)
Definition lessThan (a b : JsValue) : bool :=
  match toPrimitive a, toPrimitive b with
  | JStr x, JStr y => String.ltb x y
  | x, y =>
      match toNumber x, toNumber y with
      | Some m, Some n => m <? n
      | _, _ => false
      end
  end.

(** [a <= b] *)
Definition lessEq (a b : JsValue) : bool :=
  match toPrimitive a, toPrimitive b with
  | JStr x, JStr y => String.leb x y
  | x, y =>
      match toNumber x, toNumber y with
      | Some m, Some n => m <=? n
      | _, _ => false
      end
  end.

(** [a >= b] *)
Definition greaterEq (a b : JsValue) : bool := lessEq b a.

(** What [JSON.stringify] keeps of a value: properties holding
    [undefined] or a function are dropped, such array items become
    [null]. *)
Fixpoint stored (v : JsValue) : JsValue :=
  match v with
  | JArr items =>
      JArr (map (λ x, match stored x with JUndefined => JNull | y => y end) items)
  | JObj props =>
      JObj ((fix keep (ps : list (string * JsValue)) :=
               match ps with
               | [] => []
               | (k, x) :: rest =>
                   match stored x with
                   | JUndefined => keep rest
                   | y => (k, y) :: keep rest
                   end
               end) props)
  | JNative name => nativeToJSON name
  | _ => v
  end.
End Language.

End Js.

(** * config/redis.js and utils/cache.js: the cache and the list queues

    Cached values and queue items are stored as JSON text. The text is
    modelled by the value that [JSON.parse] reads back from it
    ([stored]); for a value that has no JSON text ([undefined], a
    function) the client writes the empty text, modelled by
    [undefined]. Only the string keys of the cache and the list keys of
    the queues are modelled here. *)

Module Cache.
Import Js.

Definition unreachable : string := Redis.unreachable.

Record Entry : Type := mkEntry {
  text : JsValue;
  expireAt : Z          (** the instant (ms) at which the key lapses *)
}.

Record Store : Type := mkStore {
  up : bool;
  entries : gmap string Entry;
  (** a list key, leftmost element first; an empty list does not exist *)
  lists : gmap string (list JsValue);
  logged : list string
}.

Definition logger (line : string) (s : Store) : Store :=
  mkStore (up s) (entries s) (lists s) (logged s ++ [line]).

Definition emptyText (item : JsValue) : bool :=
  match item with JUndefined => true | _ => false end.

(** [value ? JSON.parse(value) : null] on a stored text *)
Definition parse (item : JsValue) : JsValue :=
  if emptyText item then JNull else item.

(** What [getOrSet] answers *)
Record Fetched : Type := mkFetched { data : JsValue; cached : bool }.

Section Helpers.
Context `{JsEngine}.

(** [cache.get(key)], over GET *)
Definition get (now : Z) (key : string) (s : Store) : JsValue * Store :=
  if up s then
    match entries s !! key with
    | Some e => if bool_decide (expireAt e ≤ now) then (JNull, s) else (parse (text e), s)
    | None => (JNull, s)
    end
  else (JNull, logger "Cache get error:" s).

(** [cache.set(key, value, ttlSeconds)], over SETEX, which refuses a
    time to live that is not positive *)
Definition set (now : Z) (key : string) (value : JsValue) (ttlSeconds : Z)
    (s : Store) : bool * Store :=
  if up s && bool_decide (0 < ttlSeconds) then
    (true,
     mkStore (up s)
       (<[key := mkEntry (stored value) (now + ttlSeconds * 1000)]> (entries s))
       (lists s) (logged s))
  else (false, logger "Cache set error:" s).

(** [getOrSet(key, ttlSeconds, callback)]. The callback works on a state
    [W] of its own; [now] is the instant of the lookup, [later] that of
    the write that follows the callback. *)
Definition getOrSet {W : Type} (now later : Z) (key : string) (ttlSeconds : Z)
    (callback : W → Result JsValue * W) (s : Store) (w : W)
  : Result Fetched * Store * W :=
  let '(hit, s1) := get now key s in
  if negb (strictEq hit JNull) then (Ok (mkFetched hit true), s1, w)
  else
    match callback w with
    | (Throw e, w1) => (Throw e, s1, w1)
    | (Ok value, w1) =>
        let '(_, s2) := set later key value ttlSeconds s1 in
        (Ok (mkFetched value false), s2, w1)
    end.

(** [queue.push(queueName, data)], over LPUSH: the new length *)
Definition push (queueName : string) (value : JsValue) (s : Store)
  : Result Z * Store :=
  if up s then
    let items := stored value :: default [] (lists s !! queueName) in
    (Ok (Z.of_nat (length items)),
     mkStore (up s) (entries s) (<[queueName := items]> (lists s)) (logged s))
  else (Throw unreachable, s).

(** [queue.pop(queueName)], over RPOP *)
Definition pop (queueName : string) (s : Store) : Result JsValue * Store :=
  if up s then
    match List.rev (default [] (lists s !! queueName)) with
    | [] => (Ok JNull, s)
    | item :: others =>
        (Ok (parse item),
         mkStore (up s) (entries s)
           (match others with
            | [] => delete queueName (lists s)
            | _ => <[queueName := List.rev others]> (lists s)
            end)
           (logged s))
    end
  else (Throw unreachable, s).

(** [queue.length(queueName)], over LLEN *)
Definition length (queueName : string) (s : Store) : Result Z * Store :=
  if up s then (Ok (Z.of_nat (List.length (default [] (lists s !! queueName)))), s)
  else (Throw unreachable, s).

(** LRANGE key start stop: both ends count from the left when not
    negative and from the right when negative, and are inclusive. *)
Definition lrange (items : list JsValue) (start stop : Z) : list JsValue :=
  let len := Z.of_nat (List.length items) in
  let first := Z.max 0 (if bool_decide (start < 0) then len + start else start) in
  let last := Z.min (len - 1) (if bool_decide (stop < 0) then len + stop else stop) in
  if bool_decide (last < first) then []
  else take (Z.to_nat (last - first + 1)) (drop (Z.to_nat first) items).

(** [queue.peek(queueName, count = 10)], over LRANGE -count -1; every
    item goes through [JSON.parse], which throws on the empty text. *)
Definition peek (queueName : string) (count : option Z) (s : Store)
  : Result (list JsValue) * Store :=
  if up s then
    let items := lrange (default [] (lists s !! queueName)) (- default 10 count) (-1) in
    if existsb emptyText items then (Throw "Unexpected end of JSON input", s)
    else (Ok items, s)
  else (Throw unreachable, s).

(** Items pushed one after the other, and items popped one after the
    other until the first failure *)
Fixpoint pushAll (queueName : string) (values : list JsValue) (s : Store) : Store :=
  match values with
  | [] => s
  | v :: rest => pushAll queueName rest (push queueName v s).2
  end.

Fixpoint popMany (n : nat) (queueName : string) (s : Store)
  : list JsValue * Store :=
  match n with
  | O => ([], s)
  | S n' =>
      match pop queueName s with
      | (Ok item, s1) =>
          let '(items, s2) := popMany n' queueName s1 in (item :: items, s2)
      | (Throw _, s1) => ([], s1)
      end
  end.
End Helpers.

End Cache.

(** * services/workflow: the workflow engine *)

Module Workflow.
Import Js.

(** A condition as the request schema admits it: [type], [operator] and
    [value] are required; [field], which the engine reads first, may be
    absent. *)
Record Condition : Type := mkCondition {
  field : option string;
  type : string;
  operator : string;
  value : JsValue
}.

Record Action : Type := mkAction {
  kind : string;          (** [action.type] *)
  config : JsValue
}.

Record WorkflowDef : Type := mkWorkflow {
  id : string;
  conditions : list Condition;
  actions : list Action
}.

Record LogEntry : Type := mkLog { time : string; message : string }.

(** A row of [workflow_executions] *)
Record ExecutionRow : Type := mkExecution {
  started_at : Z;
  status : string;
  result : JsValue;
  error : option string;
  logs : list LogEntry;
  completed_at : option Z;
  duration_ms : option Z
}.

(** The statistics columns of a row of [workflows] *)
Record WorkflowRow : Type := mkStats {
  execution_count : Z;
  last_executed_at : option Z;
  last_execution_status : option string
}.

(** What an HTTP peer answers to a request: how long it took and the
    response, or the error the client raises. *)
Record Response : Type := mkResponse { code : Z; body : JsValue }.
Record Reply : Type := mkReply { took : Z; answer : Result Response }.

Record World : Type := mkWorld {
  clock : Z;
  executions : gmap string ExecutionRow;
  workflows : gmap string WorkflowRow;
  (** the actions handed to [executeAction], oldest first *)
  dispatched : list Action;
  (** the lines handed to the logger, oldest first *)
  logged : list string
}.

Definition tick (dt : Z) (w : World) : World :=
  mkWorld (clock w + dt) (executions w) (workflows w) (dispatched w) (logged w).

Definition logger (line : string) (w : World) : World :=
  mkWorld (clock w) (executions w) (workflows w) (dispatched w) (logged w ++ [line]).

Definition dispatch (a : Action) (w : World) : World :=
  mkWorld (clock w) (executions w) (workflows w) (dispatched w ++ [a]) (logged w).

(** [WorkflowExecution.updateStatus(id, { status, result, error, logs })]:
    every column is overwritten, an absent [result] is stored as [{}]. *)
Definition updateStatus `{JsEngine} (executionId : string) (st : string)
    (res : option JsValue) (err : option string) (lg : list LogEntry)
    (w : World) : World :=
  mkWorld (clock w)
    (alter (λ row, mkExecution (started_at row) st
                     (stored (default (JObj []) res)) err lg
                     (Some (clock w)) (Some (clock w - started_at row)))
           executionId (executions w))
    (workflows w) (dispatched w) (logged w).

(** [Workflow.updateExecutionStats(id, success)] *)
Definition updateExecutionStats (workflowId : string) (success : bool)
    (w : World) : World :=
  mkWorld (clock w) (executions w)
    (alter (λ row, mkStats (execution_count row + 1) (Some (clock w))
                     (Some (if success then "success" else "failed")))
           workflowId (workflows w))
    (dispatched w) (logged w).

(** [getNestedValue(obj, path)] *)
Definition getNestedValue `{JsEngine} (obj : JsValue) (path : string) : JsValue :=
  foldl getProp obj (split "." path).

(** [condition.field || condition.type] *)
Definition pathOf (c : Condition) : string :=
  match field c with
  | Some f => if String.eqb f EmptyString then type c else f
  | None => type c
  end.

(** The operator names the engine knows *)
Definition supported : list string :=
  ["equals"; "eq"; "not_equals"; "ne"; "greater_than"; "gt";
   "less_than"; "lt"; "contains"; "exists"].

Inductive Operator : Type :=
| Equals | NotEquals | GreaterThan | LessThan | Contains | Exists | Unknown.

(** The [case] labels of the [switch] in [evaluateConditions] *)
Definition label (op : string) : Operator :=
  if String.eqb op "equals" || String.eqb op "eq" then Equals
  else if String.eqb op "not_equals" || String.eqb op "ne" then NotEquals
  else if String.eqb op "greater_than" || String.eqb op "gt" then GreaterThan
  else if String.eqb op "less_than" || String.eqb op "lt" then LessThan
  else if String.eqb op "contains" then Contains
  else if String.eqb op "exists" then Exists
  else Unknown.

(** Modelled from the spec: the table [WORKFLOW_ACTIONS] of
    config/constants is not among the sources; the action kinds are the
    ones named for the engine (webhook, http_request, email,
    solana_transfer). *)
Definition WEBHOOK : string := "webhook".
Definition HTTP_REQUEST : string := "http_request".
Definition EMAIL : string := "email".
Definition SOLANA_TRANSFER : string := "solana_transfer".

Section Engine.
Context `{JsEngine}.
(** the HTTP client: what a request, given as its options, meets *)
Variable axios : JsValue → Reply.

Definition stamp (w : World) : string := toISOString (clock w).

(** [evaluateConditions(conditions, data)] *)
Fixpoint evaluateConditions (cs : list Condition) (data : JsValue)
    (w : World) : bool * World :=
  match cs with
  | [] => (true, w)
  | c :: rest =>
      let v := getNestedValue data (pathOf c) in
      let targetValue := value c in
      match label (operator c) with
      | Equals =>
          if negb (strictEq v targetValue) then (false, w)
          else evaluateConditions rest data w
      | NotEquals =>
          if strictEq v targetValue then (false, w)
          else evaluateConditions rest data w
      | GreaterThan =>
          if lessEq v targetValue then (false, w)
          else evaluateConditions rest data w
      | LessThan =>
          if greaterEq v targetValue then (false, w)
          else evaluateConditions rest data w
      | Contains =>
          if negb (includes (toString targetValue) (toString v)) then (false, w)
          else evaluateConditions rest data w
      | Exists =>
          if strictEq v JUndefined || strictEq v JNull then (false, w)
          else evaluateConditions rest data w
      | Unknown =>
          evaluateConditions rest data
            (logger ("Unknown condition operator: " +:+ operator c) w)
      end
  end.

Definition request (options : JsValue) (w : World) : Result Response * World :=
  let r := axios options in (answer r, tick (took r) w).

Definition response (r : Response) : JsValue :=
  JObj [("status", JNum (code r)); ("data", body r)].

(** [executeWebhookAction(config, data)] *)
Definition executeWebhookAction (cfg data : JsValue) (w : World)
  : Result JsValue * World :=
  match request
          (JObj [("method", JStr "post"); ("url", getProp cfg "url");
                 ("data", JObj [("event", JStr "workflow.action");
                                ("data", data);
                                ("timestamp", JStr (stamp w))]);
                 ("timeout", JNum 10000);
                 ("headers", orElse (getProp cfg "headers") (JObj []))]) w with
  | (Ok r, w1) => (Ok (response r), w1)
  | (Throw e, w1) => (Throw e, w1)
  end.

(** [executeHttpAction(config, data)] *)
Definition executeHttpAction (cfg data : JsValue) (w : World)
  : Result JsValue * World :=
  match request
          (JObj [("method", orElse (getProp cfg "method") (JStr "POST"));
                 ("url", getProp cfg "url");
                 ("data", orElse (getProp cfg "body") data);
                 ("headers", orElse (getProp cfg "headers") (JObj []));
                 ("timeout", orElse (getProp cfg "timeout") (JNum 10000))]) w with
  | (Ok r, w1) => (Ok (response r), w1)
  | (Throw e, w1) => (Throw e, w1)
  end.

(** [executeEmailAction(config, data)] *)
Definition executeEmailAction (cfg data : JsValue) (w : World)
  : Result JsValue * World :=
  (Ok (JObj [("sent", JBool true); ("to", getProp cfg "to")]),
   logger "Email action:" w).

(** [executeSolanaTransferAction(config, data)] *)
Definition executeSolanaTransferAction (cfg data : JsValue) (w : World)
  : Result JsValue * World :=
  (Ok (JObj [("queued", JBool true)]), logger "Solana transfer action:" w).

(** [executeAction(action, data)] *)
Definition executeAction (a : Action) (data : JsValue) (w : World)
  : Result JsValue * World :=
  let w := dispatch a w in
  if String.eqb (kind a) WEBHOOK then executeWebhookAction (config a) data w
  else if String.eqb (kind a) HTTP_REQUEST then executeHttpAction (config a) data w
  else if String.eqb (kind a) EMAIL then executeEmailAction (config a) data w
  else if String.eqb (kind a) SOLANA_TRANSFER
       then executeSolanaTransferAction (config a) data w
  else (Throw ("Unknown action type: " +:+ kind a), w).

(** The locals of [executeWorkflow] that outlive a [throw]: [logs] is
    declared before the [try], [results] inside it. *)
Record Locals : Type := mkLocals {
  logs_ : list LogEntry;
  results_ : list JsValue
}.

Definition push (msg : string) (w : World) (l : Locals) : Locals :=
  mkLocals (logs_ l ++ [mkLog (stamp w) msg]) (results_ l).

Definition record (r : JsValue) (l : Locals) : Locals :=
  mkLocals (logs_ l) (results_ l ++ [r]).

(** The [for (const action of actions)] loop *)
Fixpoint runActions (todo : list Action) (data : JsValue)
    (l : Locals) (w : World) : Result unit * Locals * World :=
  match todo with
  | [] => (Ok tt, l, w)
  | a :: rest =>
      let l := push ("Executing action: " +:+ kind a) w l in
      match executeAction a data w with
      | (Ok r, w1) =>
          let l := record (JObj [("action", JStr (kind a));
                                 ("success", JBool true);
                                 ("result", r)]) l in
          let l := push ("Action " +:+ kind a +:+ " completed") w1 l in
          runActions rest data l w1
      | (Throw e, w1) =>
          let l := record (JObj [("action", JStr (kind a));
                                 ("success", JBool false);
                                 ("error", JStr e)]) l in
          let l := push ("Action " +:+ kind a +:+ " failed: " +:+ e) w1 l in
          (Throw e, l, w1)
      end
  end.

(** The body of the [try] in [executeWorkflow] *)
Definition tryBlock (executionId : string) (wf : WorkflowDef)
    (triggerData : JsValue) (w : World) : Result unit * Locals * World :=
  let l := push "Workflow started" w (mkLocals [] []) in
  let gate :=
    match conditions wf with
    | [] => (true, l, w)
    | cs =>
        let '(met, w1) := evaluateConditions cs triggerData w in
        if met then (true, push "Conditions evaluated: passed" w1 l, w1)
        else (false, push "Conditions not met, skipping" w1 l, w1)
    end in
  let '(met, l, w) := gate in
  if negb met then
    (Ok tt, l,
     updateStatus executionId "skipped"
       (Some (JObj [("reason", JStr "Conditions not met")])) None (logs_ l) w)
  else
    match runActions (actions wf) triggerData l w with
    | (Throw e, l, w1) => (Throw e, l, w1)
    | (Ok _, l, w1) =>
        let w2 := updateStatus executionId "success"
                    (Some (JObj [("actions", JArr (results_ l))])) None
                    (logs_ l) w1 in
        let w3 := updateExecutionStats (id wf) true w2 in
        (Ok tt, push "Workflow completed successfully" w3 l, w3)
    end.

(** [executeWorkflow(executionId, workflow, triggerData)] *)
Definition executeWorkflow (executionId : string) (wf : WorkflowDef)
    (triggerData : JsValue) (w : World) : Result unit * World :=
  match tryBlock executionId wf triggerData w with
  | (Ok _, _, w1) => (Ok tt, w1)
  | (Throw e, l, w1) =>
      let l := push ("Workflow failed: " +:+ e) w1 l in
      let w2 := updateStatus executionId "failed" None (Some e) (logs_ l) w1 in
      let w3 := updateExecutionStats (id wf) false w2 in
      (Throw e, w3)
  end.
End Engine.

(** ** The workflow queue

    [workflowQueue] hands every job to the function given to
    [workflowQueue.process]; its default job options ask for
    [config.workflow.maxRetries] attempts with a backoff between them.
    The job's time limit ([config.workflow.maxExecutionTime]) is a race
    between a run and a timer; runs are taken to end within it. *)

Section Queue.
Context `{JsEngine}.
(** the HTTP client as the run that follows [made] failed ones meets it *)
Variable network : nat → JsValue → Reply.
(** [config.workflow.maxRetries], the [attempts] of a job *)
Variable maxRetries : Z.
(** the wait the queue's backoff puts after the [made]-th failed run *)
Variable backoff : nat → Z.

(** The function given to [workflowQueue.process], on the job data
    [{ executionId, workflow, triggerData }] *)
Definition processor (made : nat) (executionId : string) (wf : WorkflowDef)
    (triggerData : JsValue) (w : World) : Result unit * World :=
  match executeWorkflow (network made) executionId wf triggerData w with
  | (Ok _, w1) => (Ok tt, w1)
  | (Throw e, w1) => (Throw e, logger "Workflow execution failed:" w1)
  end.

(** The queue's worker on one job: a run that returns completes the
    job; a run that throws is followed by another, after the backoff,
    while fewer than [attempts] runs have been made ([more] are still
    allowed). The last component is the number of runs made. *)
Fixpoint work (more made : nat) (executionId : string) (wf : WorkflowDef)
    (triggerData : JsValue) (w : World) : Result unit * World * nat :=
  match processor made executionId wf triggerData w with
  | (Ok _, w1) => (Ok tt, w1, S made)
  | (Throw e, w1) =>
      match more with
      | O => (Throw e, w1, S made)
      | S more' =>
          work more' (S made) executionId wf triggerData
            (tick (backoff (S made)) w1)
      end
  end.

(** A job from [workflowQueue.add] to its end *)
Definition runJob (executionId : string) (wf : WorkflowDef)
    (triggerData : JsValue) (w : World) : Result unit * World * nat :=
  work (Z.to_nat (maxRetries - 1)) 0 executionId wf triggerData w.
End Queue.

End Workflow.

(** * services/zk: the proof queue and the direct proof calls *)

Module Zk.
Import Js.

Record Circuit : Type := mkCircuit {
  id : string;
  name : string;
  constraints : Z;
  provingTimeEstimate : string
}.

Definition CIRCUITS : list Circuit :=
  [ mkCircuit "balance" "Balance Threshold Proof" 64 "1-3 seconds";
    mkCircuit "holder" "Token Holder Proof" 280 "2-5 seconds";
    mkCircuit "threshold" "Generic Threshold Proof" 64 "1-3 seconds" ].

(** [getCircuit(circuitId)] *)
Definition getCircuit (circuitId : string) : option Circuit :=
  List.find (λ c, String.eqb (id c) circuitId) CIRCUITS.

(** The payload of a proof job *)
Record ProofRequest : Type := mkRequest {
  circuitId : string;
  inputs : JsValue;
  callbackUrl : JsValue;
  userId : string
}.

(** The proof queue as the service uses it: the jobs waiting for a
    worker, oldest first. *)
Record Queue : Type := mkQueue {
  waiting : list ProofRequest;
  logged : list string
}.

Definition getWaitingCount (q : Queue) : Z := Z.of_nat (length (waiting q)).

Definition add (data : ProofRequest) (q : Queue) : Queue :=
  mkQueue (waiting q ++ [data]) (logged q).

Definition queueFull : string := "Proof queue is full. Please try again later.".

Section Bounded.
(** [config.zkProof.maxQueueSize] *)
Variable maxQueueSize : Z.

(** [queueProofGeneration(proofId, data)] *)
Definition queueProofGeneration (proofId : string) (data : ProofRequest)
    (q : Queue) : Result unit * Queue :=
  match getCircuit (circuitId data) with
  | None => (Throw ("Circuit " +:+ circuitId data +:+ " not found"), q)
  | Some _ =>
      if bool_decide (maxQueueSize ≤ getWaitingCount q)
      then (Throw queueFull, q)
      else
        let q1 := add data q in
        (Ok tt, mkQueue (waiting q1) (logged q1 ++ ["Proof generation queued:"]))
  end.
End Bounded.

(** What the prover hands back *)
Record Proof : Type := mkProof { proof : JsValue; publicSignals : JsValue }.

(** One call of [snarkjs.groth16.fullProve(inputs, wasmPath, zkeyPath)] *)
Record ProverCall : Type := mkProverCall {
  witness : JsValue;
  wasmPath : string;
  zkeyPath : string
}.

(** What a direct proof call answers *)
Record Generated : Type := mkGenerated {
  proof_ : JsValue;
  publicSignals_ : JsValue;
  threshold_ : string;
  circuit_ : string
}.

Definition belowThreshold : string :=
  "Balance is below threshold - cannot generate valid proof".

Definition valueBelowThreshold : string :=
  "Value is below threshold - cannot generate valid proof".

Definition notAHolder : string :=
  "Must have positive balance to prove holder status".

(** What [generateHolderProof] answers *)
Record Held : Type := mkHeld {
  proof' : JsValue;
  publicSignals' : JsValue;
  tokenHash' : JsValue;
  circuit' : string
}.

(** [Buffer.from(tokenAddress).slice(0, 31)]: the first 31 bytes of the
    text (a string is the sequence of its UTF-8 bytes). *)
Definition addressBytes (tokenAddress : string) : list Z :=
  take 31 (map (λ a, Z.of_N (Ascii.N_of_ascii a)) (list_ascii_of_string tokenAddress)).

(** The number that the bytes spell in base 256, most significant first *)
Definition bigEndian (bytes : list Z) : Z :=
  foldl (λ acc b, acc * 256 + b) 0 bytes.

(** [BigInt('0x' + bytes.toString('hex'))]: with no byte at all the text
    is "0x", which is not a number. *)
Definition tokenNumber (tokenAddress : string) : Result Z :=
  match addressBytes tokenAddress with
  | [] => Throw "Cannot convert 0x to a BigInt"
  | bytes => Ok (bigEndian bytes)
  end.

Section Prover.
Context `{JsEngine}.
Variable fullProve : ProverCall → Result Proof.

(** [BigInt(v)] *)
Definition BigInt (v : JsValue) : Result Z :=
  match toPrimitive v with
  | JNum z => Ok z
  | JBool true => Ok 1
  | JBool false => Ok 0
  | JStr s =>
      match StringToBigInt s with
      | Some z => Ok z
      | None => Throw ("Cannot convert " +:+ s +:+ " to a BigInt")
      end
  | other => Throw ("Cannot convert " +:+ toString other +:+ " to a BigInt")
  end.

(** [generateBalanceProof(balance, threshold)]; the second component
    lists the calls made to the prover. *)
Definition generateBalanceProof (balance threshold : JsValue)
    (calls : list ProverCall) : Result Generated * list ProverCall :=
  match BigInt balance with
  | Throw e => (Throw e, calls)
  | Ok balanceNum =>
      match BigInt threshold with
      | Throw e => (Throw e, calls)
      | Ok thresholdNum =>
          if bool_decide (balanceNum < thresholdNum)
          then (Throw belowThreshold, calls)
          else
            let call :=
              mkProverCall
                (JObj [("balance", JStr (pretty balanceNum));
                       ("threshold", JStr (pretty thresholdNum))])
                "circuits/compiled/balance_threshold_js/balance_threshold.wasm"
                "circuits/keys/balance_threshold_final.zkey" in
            match fullProve call with
            | Throw e => (Throw e, calls ++ [call])
            | Ok p =>
                (Ok (mkGenerated (proof p) (publicSignals p)
                       (toString threshold) "balance"),
                 calls ++ [call])
            end
      end
  end.

(** [generateThresholdProof(value, threshold)] *)
Definition generateThresholdProof (value threshold : JsValue)
    (calls : list ProverCall) : Result Generated * list ProverCall :=
  match BigInt value with
  | Throw e => (Throw e, calls)
  | Ok valueNum =>
      match BigInt threshold with
      | Throw e => (Throw e, calls)
      | Ok thresholdNum =>
          if bool_decide (valueNum < thresholdNum)
          then (Throw valueBelowThreshold, calls)
          else
            let call :=
              mkProverCall
                (JObj [("value", JStr (pretty valueNum));
                       ("threshold", JStr (pretty thresholdNum))])
                "circuits/compiled/threshold_proof_js/threshold_proof.wasm"
                "circuits/keys/threshold_proof_final.zkey" in
            match fullProve call with
            | Throw e => (Throw e, calls ++ [call])
            | Ok p =>
                (Ok (mkGenerated (proof p) (publicSignals p)
                       (toString threshold) "threshold"),
                 calls ++ [call])
            end
      end
  end.

(** [generateHolderProof(balance, tokenAddress, tokenHash)], for a token
    address given as text *)
Definition generateHolderProof (balance : JsValue) (tokenAddress : string)
    (tokenHash : JsValue) (calls : list ProverCall)
  : Result Held * list ProverCall :=
  match BigInt balance with
  | Throw e => (Throw e, calls)
  | Ok balanceNum =>
      if bool_decide (balanceNum ≤ 0)
      then (Throw notAHolder, calls)
      else
        match tokenNumber tokenAddress with
        | Throw e => (Throw e, calls)
        | Ok tokenNum =>
            let call :=
              mkProverCall
                (JObj [("balance", JStr (pretty balanceNum));
                       ("tokenAddress", JStr (pretty tokenNum));
                       ("tokenHash", tokenHash)])
                "circuits/compiled/token_holder_js/token_holder.wasm"
                "circuits/keys/token_holder_final.zkey" in
            match fullProve call with
            | Throw e => (Throw e, calls ++ [call])
            | Ok p =>
                (Ok (mkHeld (proof p) (publicSignals p) tokenHash "holder"),
                 calls ++ [call])
            end
        end
  end.
End Prover.

End Zk.

(** * services/webhook: signed delivery *)

Module Webhook.
Import Js.

Record Hook : Type := mkHook { id : string; url : string; secret : string }.

(** A row of [webhook_deliveries] *)
Record DeliveryRow : Type := mkDelivery {
  status : string;
  response_code : option Z;
  response_body : option string;
  error : option string;
  duration_ms : option Z;
  attempt : Z;
  completed_at : option Z
}.

(** The argument of [WebhookDelivery.updateStatus] *)
Record Update : Type := mkUpdate {
  status_ : string;
  responseCode : option Z;
  responseBody : option string;
  error_ : option string;
  duration : option Z
}.

(** What the receiver does with a POST: nothing usable (time out,
    refused connection), or a response with a status and a body, the
    body given as the text [JSON.stringify] makes of [response.data]. *)
Inductive Receipt : Type :=
| NoResponse (reason : string)
| Responded (code : Z) (json : string).

Record Reply : Type := mkReply { took : Z; receipt : Receipt }.

Record Response : Type := mkResponse { code_ : Z; json_ : string }.

Record World : Type := mkWorld {
  clock : Z;
  deliveries : gmap string DeliveryRow;
  (** [webhooks.last_triggered_at] *)
  last_triggered_at : gmap string Z;
  (** every [WebhookDelivery.updateStatus] issued, oldest first *)
  issued : list (string * Update);
  logged : list string
}.

Record Delivered : Type := mkDelivered {
  success : bool;
  statusCode : Z;
  duration_ : Z
}.

(** What [test] answers *)
Record Tested : Type := mkTested {
  success' : bool;
  statusCode' : option Z;
  duration' : Z;
  error' : option string
}.

(** [WebhookDelivery.updateStatus(id, {...})]: every column but
    [attempt] is overwritten, a field left out becomes NULL. *)
Definition updateStatus (deliveryId : string) (u : Update) (w : World) : World :=
  mkWorld (clock w)
    (alter (λ row, mkDelivery (status_ u) (responseCode u) (responseBody u)
                     (error_ u) (duration u) (attempt row) (Some (clock w)))
           deliveryId (deliveries w))
    (last_triggered_at w)
    (issued w ++ [(deliveryId, u)])
    (logged w).

(** [Webhook.updateLastTriggered(id)] *)
Definition updateLastTriggered (hookId : string) (w : World) : World :=
  mkWorld (clock w) (deliveries w)
    (alter (λ _, clock w) hookId (last_triggered_at w))
    (issued w) (logged w).

Definition logger (line : string) (w : World) : World :=
  mkWorld (clock w) (deliveries w) (last_triggered_at w) (issued w)
    (logged w ++ [line]).

Definition tick (dt : Z) (w : World) : World :=
  mkWorld (clock w + dt) (deliveries w) (last_triggered_at w) (issued w) (logged w).

Section Delivery.
Context `{JsEngine}.
(** [createHmacSignature(payload, secret)] *)
Variable createHmacSignature : JsValue → string → string.
(** [config.webhook.timeoutMs] *)
Variable timeoutMs : Z.
(** the receiver: what the signed request, given as its options, meets *)
Variable receiver : JsValue → Reply.

(** [axios.post] with [validateStatus: (status) => status < 500] *)
Definition post (options : JsValue) (w : World) : Result Response * World :=
  let r := receiver options in
  let w := tick (took r) w in
  match receipt r with
  | NoResponse reason => (Throw reason, w)
  | Responded st json =>
      if bool_decide (st < 500) then (Ok (mkResponse st json), w)
      else (Throw ("Request failed with status code " +:+ pretty st), w)
  end.

(** The body of the [try] in [deliverWebhook] *)
Definition attemptDelivery (deliveryId : string) (hook : Hook) (event : string)
    (webhookPayload : JsValue) (signature : string) (startTime : Z) (w : World)
  : Result Delivered * World :=
  match post (JObj [("url", JStr (url hook));
                    ("data", webhookPayload);
                    ("timeout", JNum timeoutMs);
                    ("headers",
                     JObj [("Content-Type", JStr "application/json");
                           ("X-Webhook-Signature", JStr signature);
                           ("X-Webhook-Event", JStr event);
                           ("X-Webhook-Delivery", JStr deliveryId);
                           ("X-Webhook-Timestamp",
                            getProp webhookPayload "timestamp");
                           ("User-Agent", JStr "AccesoAPI-Webhook/1.0")])]) w with
  | (Throw e, w1) => (Throw e, w1)
  | (Ok response, w1) =>
      let duration := clock w1 - startTime in
      let isSuccess :=
        bool_decide (200 ≤ code_ response) && bool_decide (code_ response < 300) in
      let w2 := updateStatus deliveryId
                  (mkUpdate (if isSuccess then "success" else "failed")
                     (Some (code_ response))
                     (Some (String.substring 0 1000 (json_ response)))
                     None (Some duration)) w1 in
      let w3 := if isSuccess then updateLastTriggered (id hook) w2 else w2 in
      let w4 := logger "Webhook delivered:" w3 in
      if negb isSuccess
      then (Throw ("Webhook returned " +:+ pretty (code_ response)), w4)
      else (Ok (mkDelivered true (code_ response) duration), w4)
  end.

(** [deliverWebhook(deliveryId, webhook, event, payload, attempt)] *)
Definition deliverWebhook (deliveryId : string) (hook : Hook) (event : string)
    (payload : JsValue) (attemptNo : Z) (w : World)
  : Result Delivered * World :=
  let startTime := clock w in
  let webhookPayload :=
    JObj [("event", JStr event); ("data", payload);
          ("timestamp", JStr (toISOString (clock w)));
          ("delivery_id", JStr deliveryId)] in
  let signature := createHmacSignature webhookPayload (secret hook) in
  match attemptDelivery deliveryId hook event webhookPayload signature startTime w with
  | (Ok d, w1) => (Ok d, w1)
  | (Throw e, w1) =>
      let duration := clock w1 - startTime in
      (Throw e,
       updateStatus deliveryId
         (mkUpdate "failed" None None (Some e) (Some duration)) w1)
  end.

(** [test(webhook, payload = {})]: one signed POST that accepts any
    status ([validateStatus: () => true]) and reports what came back. *)
Definition test (hook : Hook) (payload : JsValue) (w : World) : Tested * World :=
  let payload := match payload with JUndefined => JObj [] | _ => payload end in
  let testPayload :=
    JObj [("event", JStr "webhook.test"); ("data", payload);
          ("timestamp", JStr (toISOString (clock w)));
          ("test", JBool true)] in
  let signature := createHmacSignature testPayload (secret hook) in
  let startTime := clock w in
  let r := receiver
             (JObj [("url", JStr (url hook));
                    ("data", testPayload);
                    ("timeout", JNum timeoutMs);
                    ("headers",
                     JObj [("Content-Type", JStr "application/json");
                           ("X-Webhook-Signature", JStr signature);
                           ("X-Webhook-Event", JStr "webhook.test");
                           ("X-Webhook-Test", JStr "true");
                           ("User-Agent", JStr "AccesoAPI-Webhook/1.0")])]) in
  let w1 := tick (took r) w in
  let duration := clock w1 - startTime in
  match receipt r with
  | Responded st _ =>
      (mkTested (bool_decide (200 ≤ st) && bool_decide (st < 300)) (Some st)
         duration None, w1)
  | NoResponse reason => (mkTested false None duration (Some reason), w1)
  end.
End Delivery.

End Webhook.

(** * services/solana: the provider pool and the retrying requester *)

Module Solana.
Import Js.

Record Health : Type := mkHealth {
  healthy : bool;
  failures : Z;
  lastCheck : Z
}.

(** [providerHealth] *)
Record Healths : Type := mkHealths {
  primary : Health;
  fallback : Health;
  triton : Health
}.

(** [RPC_PROVIDERS] *)
Record Providers : Type := mkProviders {
  primaryUrl : string;
  fallbackUrl : string;
  tritonUrl : string
}.

Record Provider : Type := mkProvider { name : string; url : string }.

(** [providerHealth[providerName]] *)
Definition get (providerName : string) (hs : Healths) : option Health :=
  if String.eqb providerName "primary" then Some (primary hs)
  else if String.eqb providerName "fallback" then Some (fallback hs)
  else if String.eqb providerName "triton" then Some (triton hs)
  else None.

Definition set (providerName : string) (h : Health) (hs : Healths) : Healths :=
  if String.eqb providerName "primary" then mkHealths h (fallback hs) (triton hs)
  else if String.eqb providerName "fallback" then mkHealths (primary hs) h (triton hs)
  else if String.eqb providerName "triton" then mkHealths (primary hs) (fallback hs) h
  else hs.

(** The module state: the health table, the resets that [setTimeout]
    has pending (instant due, provider), the clock and the log. *)
Record Pool : Type := mkPool {
  clock : Z;
  providerHealth : Healths;
  timers : list (Z * string);
  logged : list string
}.

(** The callback armed by [markProviderFailed] *)
Definition reset (providerName : string) (p : Pool) : Pool :=
  match get providerName (providerHealth p) with
  | Some h =>
      mkPool (clock p)
        (set providerName (mkHealth true 0 (lastCheck h)) (providerHealth p))
        (timers p)
        (logged p ++ ["RPC provider " +:+ providerName +:+ " reset to healthy"])
  | None => p
  end.

(** Time passes: the callbacks that have come due run, oldest first. *)
Definition elapse (dt : Z) (p : Pool) : Pool :=
  let t := clock p + dt in
  let due := filter (λ x, x.1 ≤ t) (timers p) in
  let later := filter (λ x, ¬ x.1 ≤ t) (timers p) in
  foldl (λ acc x, reset x.2 acc)
    (mkPool t (providerHealth p) later (logged p)) due.

(** [markProviderFailed(providerName)] *)
Definition markProviderFailed (providerName : string) (p : Pool) : Pool :=
  match get providerName (providerHealth p) with
  | Some h =>
      let h1 := mkHealth (healthy h) (failures h + 1) (lastCheck h) in
      if bool_decide (2 ≤ failures h1)
      then
        mkPool (clock p)
          (set providerName (mkHealth false (failures h1) (lastCheck h1))
             (providerHealth p))
          (timers p ++ [(clock p + 60000, providerName)])
          (logged p ++ ["RPC provider " +:+ providerName +:+ " marked unhealthy"])
      else
        mkPool (clock p) (set providerName h1 (providerHealth p))
          (timers p) (logged p)
  | None => p
  end.

(** What an endpoint does with a JSON-RPC POST *)
Inductive Outcome : Type :=
| Rejected (reason : string)       (** the client raised: timeout, network *)
| Faulted (message : string)       (** a response whose [error] member is set *)
| Answered (result : JsValue).

Record Reply : Type := mkReply { took : Z; outcome : Outcome }.

Record Served : Type := mkServed { data : JsValue; provider : string }.

Section Requester.
Variable RPC_PROVIDERS : Providers.
(** the network: url, method, params and attempt index to reply *)
Variable send : string → string → JsValue → Z → Reply.

(** [getHealthyProvider()] *)
Definition getHealthyProvider (p : Pool) : Provider * Pool :=
  let hs := providerHealth p in
  if healthy (primary hs) then (mkProvider "primary" (primaryUrl RPC_PROVIDERS), p)
  else if negb (String.eqb (fallbackUrl RPC_PROVIDERS) EmptyString) && healthy (fallback hs)
  then (mkProvider "fallback" (fallbackUrl RPC_PROVIDERS), p)
  else if negb (String.eqb (tritonUrl RPC_PROVIDERS) EmptyString) && healthy (triton hs)
  then (mkProvider "triton" (tritonUrl RPC_PROVIDERS), p)
  else
    (mkProvider "primary" (primaryUrl RPC_PROVIDERS),
     mkPool (clock p)
       (mkHealths (mkHealth true 0 (lastCheck (primary hs))) (fallback hs) (triton hs))
       (timers p) (logged p)).

(** The [for] loop of [rpcRequest]: [left] attempts remain, the next
    one has index [attempt]. *)
Fixpoint attempts (left : nat) (attempt : Z) (lastError : string)
    (method : string) (params : JsValue) (p : Pool) : Result Served * Pool :=
  match left with
  | O => (Throw lastError, p)
  | S left' =>
      let '(pr, p1) := getHealthyProvider p in
      let r := send (url pr) method params attempt in
      let p2 := elapse (took r) p1 in
      let failed (e : string) :=
        let p3 := markProviderFailed (name pr) p2 in
        let p4 := mkPool (clock p3) (providerHealth p3) (timers p3)
                    (logged p3 ++ ["RPC request failed (attempt "
                                   +:+ pretty (attempt + 1) +:+ "):"]) in
        let p5 := if bool_decide (attempt < 3 - 1)
                  then elapse (200 * (attempt + 1)) p4 else p4 in
        attempts left' (attempt + 1) e method params p5 in
      match outcome r with
      | Answered result => (Ok (mkServed result (name pr)), p2)
      | Faulted message =>
          failed (if String.eqb message EmptyString then "RPC Error" else message)
      | Rejected reason => failed reason
      end
  end.

(** [rpcRequest(method, params)] *)
Definition rpcRequest (method : string) (params : JsValue) (p : Pool)
  : Result Served * Pool :=
  attempts 3 0 EmptyString method params p.
End Requester.

End Solana.

(** * Concrete scenarios used by the examples below *)

Module Scenario.
Import Redis RateLimit Js.

(** A reading of decimal digit strings, enough for the examples. *)
Definition readDecimal (s : string) : option Z :=
  if String.eqb s EmptyString then Some 0
  else (fix go (s : string) (acc : Z) : option Z :=
          match s with
          | EmptyString => Some acc
          | String a rest =>
              match Ascii.is_nat a with
              | Some d => go rest (acc * 10 + Z.of_nat d)
              | None => None
              end
          end) s 0.

(** The natives of the examples: what a plain object inherits from
    [Object.prototype]. Its [constructor] is [Object], its [__proto__]
    the prototype itself, the rest are the prototype's functions. *)
Definition objectMember (key : string) : JsValue :=
  if String.eqb key "constructor" then JNative "Object"
  else if String.eqb key "__proto__" then JNative "Object.prototype"
  else JNative ("Object.prototype." +:+ key).

Definition functionName (native : string) : string :=
  List.last (split "." native) native.

(** An engine for the examples. It reads decimal numerals, and of the
    built-in prototypes it knows the one of plain objects; the examples
    read no inherited member of any other value. *)
Definition engine : JsEngine :=
  {| StringToNumber := readDecimal;
     StringToBigInt := readDecimal;
     toISOString := λ t, "T+" +:+ pretty t;
     inherited := λ v key,
       match v with
       | JObj _ => if existsb (String.eqb key) objectPrototype
                   then objectMember key else JUndefined
       | _ => JUndefined
       end;
     nativeToString := λ native,
       if String.eqb native "Object.prototype" then "[object Object]"
       else "function " +:+ functionName native +:+ "() { [native code] }";
     nativeToJSON := λ native,
       if String.eqb native "Object.prototype" then JObj [] else JUndefined |}.

(** One slot left under the key, two requests arriving together. *)
Definition limiterKey : string := "ratelimit:key:42".

Definition oneSlotLeft : Conn :=
  mkConn true
    {[ limiterKey :=
         mkZSet (list_to_map [("9000-0.11", 9000); ("9100-0.12", 9100);
                              ("9200-0.13", 9200); ("9300-0.14", 9300)])
                (Some 69300) ]}.

Definition firstRequest : Call := mkCall 10000 "0.15" limiterKey 5 60.
Definition secondRequest : Call := mkCall 10000 "0.16" limiterKey 5 60.

(** The two requests take turns at every [await]. *)
Definition alternating : list bool :=
  [false; true; false; true; false; true; false; true].

(** The first request runs to its end before the second starts. *)
Definition oneAfterTheOther : list bool :=
  [false; false; false; false; true; true; true; true].

(** A prover that succeeds on whatever it is given. *)
Definition prover (c : Zk.ProverCall) : Result Zk.Proof :=
  Ok (Zk.mkProof (JStr "groth16") (JArr [JStr "1"; @getProp engine (Zk.witness c) "threshold"])).

Definition balanceJob : Zk.ProofRequest :=
  Zk.mkRequest "balance"
    (JObj [("balance", JNum 150); ("threshold", JNum 100)]) JUndefined "user-1".

Definition merkleJob : Zk.ProofRequest :=
  Zk.mkRequest "merkle" (JObj []) JUndefined "user-1".

Definition idle : Zk.Queue := Zk.mkQueue [] [].
Definition busy : Zk.Queue := Zk.mkQueue [balanceJob; balanceJob] [].

(** A peer that refuses every connection, and one that accepts. *)
Definition refusing (options : JsValue) : Workflow.Reply :=
  Workflow.mkReply 5 (Throw "connect ECONNREFUSED 10.0.0.9:443").

Definition accepting (options : JsValue) : Workflow.Reply :=
  Workflow.mkReply 5 (Ok (Workflow.mkResponse 200 (JObj [("ok", JBool true)]))).

Definition notify : Workflow.Action :=
  Workflow.mkAction "webhook" (JObj [("url", JStr "https://hooks.example/a")]).
Definition mail : Workflow.Action :=
  Workflow.mkAction "email" (JObj [("to", JStr "ops@example.org")]).
Definition transfer : Workflow.Action :=
  Workflow.mkAction "solana_transfer" (JObj []).

(** Actions [A; B; C] behind no condition *)
Definition threeSteps : Workflow.WorkflowDef :=
  Workflow.mkWorkflow "wf-1" [] [notify; mail; transfer].

(** [{ type: "amount", operator: "greater_than", value: 100 }] *)
Definition amountOver100 : Workflow.Condition :=
  Workflow.mkCondition None "amount" "greater_than" (JNum 100).

(** [{ type: "memo", operator: "contains", value: "fin" }] *)
Definition memoMentionsFin : Workflow.Condition :=
  Workflow.mkCondition None "memo" "contains" (JStr "fin").

Definition gated : Workflow.WorkflowDef :=
  Workflow.mkWorkflow "wf-1" [amountOver100] [mail].

(** [{ type: "time", operator: "between", value: {...} }], the condition
    the endpoint tests create a workflow with *)
Definition officeHours : Workflow.Condition :=
  Workflow.mkCondition None "time" "between"
    (JObj [("start", JStr "09:00"); ("end", JStr "17:00")]).

Definition timed : Workflow.WorkflowDef :=
  Workflow.mkWorkflow "wf-1" [officeHours] [mail].

Definition running : Workflow.ExecutionRow :=
  Workflow.mkExecution 990 "running" (JObj []) None [] None None.

Definition sevenRuns : Workflow.WorkflowRow :=
  Workflow.mkStats 7 (Some 500) (Some "success").

Definition store : Workflow.World :=
  Workflow.mkWorld 1000 {[ "exec-1" := running ]} {[ "wf-1" := sevenRuns ]} [] [].

(** A peer that is down throughout, and one that is back for the second
    run of a job; the queue waits one second, then three. *)
Definition down (made : nat) : JsValue → Workflow.Reply := refusing.

Definition backForSecondRun (made : nat) : JsValue → Workflow.Reply :=
  match made with O => refusing | S _ => accepting end.

Definition exponential (made : nat) : Z := (2 ^ Z.of_nat made - 1) * 1000.

(** A subscriber, a pending delivery, and receivers that answer every
    request alike. *)
Definition subscriber : Webhook.Hook :=
  Webhook.mkHook "hook-1" "https://receiver.example/in" "s3cr3t".

Definition pending : Webhook.DeliveryRow :=
  Webhook.mkDelivery "pending" None None None None 1 None.

Definition outbox : Webhook.World :=
  Webhook.mkWorld 5000 {[ "dlv-1" := pending ]} {[ "hook-1" := 0 ]} [] [].

Definition answering (code : Z) (json : string) (options : JsValue) : Webhook.Reply :=
  Webhook.mkReply 120 (Webhook.Responded code json).

(** A stand-in for the keyed hash *)
Definition signer (payload : JsValue) (secret : string) : string :=
  "hmac(" +:+ secret +:+ ")".

(** A fresh provider table, and a network on which the first attempt
    of every request is lost and later attempts are answered. *)
Definition endpoints : Solana.Providers :=
  Solana.mkProviders "https://mainnet.helius-rpc.com/"
    "https://api.mainnet-beta.solana.com" "https://solana-api.projectserum.com".

Definition fresh : Solana.Pool :=
  Solana.mkPool 0
    (Solana.mkHealths (Solana.mkHealth true 0 0) (Solana.mkHealth true 0 0)
       (Solana.mkHealth true 0 0))
    [] [].

Definition firstAttemptLost (url method : string) (params : JsValue) (attempt : Z)
  : Solana.Reply :=
  if attempt =? 0 then Solana.mkReply 10000 (Solana.Rejected "timeout of 10000ms exceeded")
  else Solana.mkReply 40 (Solana.Answered (JNum 312)).

(** A store that cannot be reached, and a request that finds the window
    of [limiterKey] full. *)
Definition offline : Conn := mkConn false ∅.

Definition noSlotLeft : Conn := (checkRateLimit firstRequest oneSlotLeft).2.

(** A network that answers nobody, and one on which the primary
    endpoint alone is out. *)
Definition nobodyAnswers (url method : string) (params : JsValue) (attempt : Z)
  : Solana.Reply :=
  Solana.mkReply 10000 (Solana.Rejected "timeout of 10000ms exceeded").

Definition primaryOut (url method : string) (params : JsValue) (attempt : Z)
  : Solana.Reply :=
  if String.eqb url (Solana.primaryUrl endpoints)
  then Solana.mkReply 10000 (Solana.Rejected "timeout of 10000ms exceeded")
  else Solana.mkReply 40 (Solana.Answered (JNum 312)).

(** An action of a type that the request schema admits and the engine
    does not dispatch on. *)
Definition instruct : Workflow.Action :=
  Workflow.mkAction "solana_instruction" (JObj [("program", JStr "memo")]).

Definition unsupported : Workflow.WorkflowDef :=
  Workflow.mkWorkflow "wf-1" [] [instruct; mail].

(** A request to a route under an API key, and one without a key from
    the same address *)
Definition byKey : Middleware.Request :=
  Middleware.mkRequest "/v1/zk/prove" (Some "key-7") "203.0.113.9".

Definition byAddress : Middleware.Request :=
  Middleware.mkRequest "/v1/zk/prove" None "203.0.113.9".

(** An empty cache, a cache that is down, a queue of three jobs ("a"
    pushed first), and callbacks that count their runs *)
Definition emptyCache : Cache.Store := Cache.mkStore true ∅ ∅ [].

Definition noCache : Cache.Store := Cache.mkStore false ∅ ∅ [].

Definition threeJobs : Cache.Store :=
  Cache.mkStore true ∅ {[ "jobs" := [JStr "c"; JStr "b"; JStr "a"] ]} [].

Definition fetchSlot (runs : nat) : Result JsValue * nat := (Ok (JNum 312), S runs).

Definition fetchNothing (runs : nat) : Result JsValue * nat := (Ok JNull, S runs).

(** The first 31 characters of a token address *)
Definition mintHead : string := "So11111111111111111111111111111".
End Scenario.

(** * Properties *)

(** ** The sliding window limiter *)

Section SlidingWindow.
Import Redis RateLimit.

Variables (k : string) (n W : Z).
Hypothesis n_pos : 0 < n.
Hypothesis W_pos : 0 < W.

Local Abbreviation call := (call k n W).
Local Abbreviation quiet := (quiet k W).
Local Abbreviation tracking := (tracking k W).

Lemma live_absent t (d : gmap string ZSet) : d !! k = None → live t d k = None.
Proof. unfold live. by intros ->. Qed.

Lemma live_present t (d : gmap string ZSet) M x :
  d !! k = Some (mkZSet M (Some x)) → t < x → live t d k = Some (mkZSet M (Some x)).
Proof.
  unfold live, lapsed. intros -> Hlt. simpl.
  rewrite bool_decide_eq_false_2; [done | lia].
Qed.

Lemma live_lapsed t (d : gmap string ZSet) M x :
  d !! k = Some (mkZSet M (Some x)) → x ≤ t → live t d k = None.
Proof.
  unfold live, lapsed. intros -> Hle. simpl.
  by rewrite bool_decide_eq_true_2.
Qed.

Lemma live_fresh t (d : gmap string ZSet) e :
  live t (<[k := mkZSet e None]> d) k = Some (mkZSet e None).
Proof. unfold live. by rewrite lookup_insert_eq. Qed.

(** The first request after a quiet period is admitted and starts a
    new window. *)
Lemma check_quiet t r c :
  up c = true → quiet t c →
  ∃ c', checkRateLimit (call t r) c = (mkLimit true (n - 1) W, c')
      ∧ tracking [memberOf t r] t t c'.
Proof.
  intros Hup Hq. destruct c as [u d]. simpl in Hup. subst u.
  unfold quiet in Hq. simpl in Hq.
  eexists. split.
  - unfold checkRateLimit, zremrangebyscore, zcard, zadd, expire. simpl.
    destruct (live t d k) as [e|] eqn:Hl.
    + specialize (Hq e eq_refl).
      rewrite bool_decide_eq_true_2.
      2:{ apply map_empty_filter. intros m s Hm Hn. apply Hn.
          unfold inRange. simpl. by apply (Hq m s). }
      simpl. rewrite live_absent by apply lookup_delete_eq.
      simpl. rewrite bool_decide_eq_false_2 by lia.
      rewrite live_absent by apply lookup_delete_eq. simpl.
      rewrite live_fresh. simpl.
      rewrite insert_insert_eq, insert_delete_eq.
      replace (n - 0 - 1) with (n - 1) by lia. reflexivity.
    + simpl. rewrite Hl. simpl. rewrite bool_decide_eq_false_2 by lia.
      rewrite Hl. simpl. rewrite live_fresh. simpl.
      rewrite insert_insert_eq.
      replace (n - 0 - 1) with (n - 1) by lia. reflexivity.
  - split; [done|]. split; [lia|]. eexists. split; [apply lookup_insert_eq|].
    split; [by rewrite map_size_singleton|].
    intros m s [-> ->]%lookup_singleton_Some. split; [set_solver | lia].
Qed.

Lemma nothing_to_prune (M : gmap string Z) (seen : list string) first t :
  map_Forall (λ m s, m ∈ seen ∧ first ≤ s) M → t < first + W * 1000 →
  filter (λ p, ¬ inRange 0 (t - W * 1000) p) M = M.
Proof.
  intros HM Ht. apply map_filter_id. intros m s Hm [_ Hhi]. simpl in Hhi.
  destruct (HM m s Hm) as [_ Hs]. lia.
Qed.

(** While fewer than [n] entries are in the window, a request is
    admitted and recorded. *)
Lemma check_room seen first last t r c :
  tracking seen first last c → last ≤ t → t < first + W * 1000 →
  memberOf t r ∉ seen → Z.of_nat (length seen) < n →
  ∃ c', checkRateLimit (call t r) c
          = (mkLimit true (n - Z.of_nat (length seen) - 1) W, c')
      ∧ tracking (memberOf t r :: seen) first t c'.
Proof.
  intros (Hup & Hfl & M & Hk & Hsz & HM) Hlast Ht Hnew Hroom.
  destruct c as [u d]. simpl in Hup, Hk. subst u.
  assert (Hfresh : M !! memberOf t r = None).
  { destruct (M !! memberOf t r) as [s|] eqn:Hm; [|done].
    by destruct (HM _ _ Hm). }
  set (M' := <[memberOf t r := t]> M).
  exists (mkConn true (<[k := mkZSet M' (Some (t + W * 1000))]> d)). split.
  - unfold checkRateLimit, zremrangebyscore, zcard, zadd, expire. simpl.
    rewrite (live_present t d M _ Hk) by lia. simpl.
    rewrite (nothing_to_prune M seen first t HM Ht).
    case_bool_decide as Hempty; simpl.
    + rewrite live_absent by apply lookup_delete_eq. simpl.
      rewrite bool_decide_eq_false_2 by lia.
      rewrite live_absent by apply lookup_delete_eq. simpl.
      rewrite live_fresh. simpl.
      rewrite insert_insert_eq, insert_delete_eq.
      subst M'. rewrite Hempty, insert_empty.
      rewrite Hempty, map_size_empty in Hsz. rewrite <- Hsz. reflexivity.
    + rewrite (live_present t _ M (last + W * 1000)) by (apply lookup_insert_eq || lia).
      simpl. rewrite bool_decide_eq_false_2 by lia.
      rewrite (live_present t _ M (last + W * 1000)) by (apply lookup_insert_eq || lia).
      simpl.
      rewrite (live_present t _ M' (last + W * 1000)) by (apply lookup_insert_eq || lia).
      simpl. rewrite !insert_insert_eq, Hsz. reflexivity.
  - split; [done|]. split; [lia|]. exists M'. simpl.
    split; [apply lookup_insert_eq|].
    split; [subst M'; rewrite map_size_insert_None by done; simpl; lia|].
    subst M'. intros m s [[<- <-]|[_ Hm]]%lookup_insert_Some.
    + split; [set_solver | lia].
    + destruct (HM _ _ Hm). split; [set_solver | done].
Qed.

(** With [n] entries in the window the request is turned away and
    nothing is recorded. *)
Lemma check_full seen first last t r c :
  tracking seen first last c → last ≤ t → t < first + W * 1000 →
  n ≤ Z.of_nat (length seen) →
  checkRateLimit (call t r) c = (mkLimit false 0 W, c).
Proof.
  intros (Hup & Hfl & M & Hk & Hsz & HM) Hlast Ht Hfull.
  destruct c as [u d]. simpl in Hup, Hk. subst u.
  unfold checkRateLimit, zremrangebyscore, zcard. simpl.
  rewrite (live_present t d M _ Hk) by lia. simpl.
  rewrite (nothing_to_prune M seen first t HM Ht).
  rewrite bool_decide_eq_false_2.
  2:{ intros ->. rewrite map_size_empty in Hsz. lia. }
  simpl.
  rewrite (live_present t _ M (last + W * 1000)) by (apply lookup_insert_eq || lia).
  simpl. rewrite bool_decide_eq_true_2 by lia.
  by rewrite insert_id.
Qed.

(** One window after the last admission the key has lapsed. *)
Lemma tracking_quiet seen first last t c :
  tracking seen first last c → last + W * 1000 ≤ t → quiet t c.
Proof.
  intros (_ & _ & M & Hk & _) Ht e He.
  by rewrite (live_lapsed t _ M _ Hk Ht) in He.
Qed.

Lemma tracking_up seen first last c : tracking seen first last c → up c = true.
Proof. by intros [? _]. Qed.

(** A connection that is down lets every request through. *)
Lemma check_down q c : up c = false → checkRateLimit q c
    = (failOpen (maxRequests q) (windowSeconds q), c).
Proof. intros H. unfold checkRateLimit, zremrangebyscore. by rewrite H. Qed.
End SlidingWindow.

Section WindowBoundary.
Import Redis RateLimit.

Local Ltac unpack H :=
  repeat (let H' := fresh in apply not_elem_of_cons in H as [H' H]).

Local Ltac apart :=
  repeat (apply not_elem_of_cons; split; [congruence|]); apply not_elem_of_nil.

(** C1. Five requests within one 60 second window are admitted, the
    sixth is turned away, and a request made once every recorded
    timestamp has left the window is admitted again. The store is
    reachable, the key starts without entries inside the window, and the
    random draws keep the recorded members apart. *)
Theorem limiter_five_per_window (k : string) (c : Conn)
    (t1 t2 t3 t4 t5 t6 t7 : Z) (r1 r2 r3 r4 r5 r6 r7 : string) :
  up c = true →
  quiet k 60 t1 c →
  t1 ≤ t2 → t2 ≤ t3 → t3 ≤ t4 → t4 ≤ t5 → t5 ≤ t6 → t6 < t1 + 60 * 1000 →
  NoDup [memberOf t1 r1; memberOf t2 r2; memberOf t3 r3; memberOf t4 r4;
         memberOf t5 r5] →
  t5 + 60 * 1000 ≤ t7 →
  map allowed
    (serve [call k 5 60 t1 r1; call k 5 60 t2 r2; call k 5 60 t3 r3;
            call k 5 60 t4 r4; call k 5 60 t5 r5; call k 5 60 t6 r6;
            call k 5 60 t7 r7] c).1
  = [true; true; true; true; true; false; true].
Proof.
  intros Hup Hq H12 H23 H34 H45 H56 Hwin Hnd Hlater.
  apply NoDup_cons in Hnd as [N1 Hnd]. apply NoDup_cons in Hnd as [N2 Hnd].
  apply NoDup_cons in Hnd as [N3 Hnd]. apply NoDup_cons in Hnd as [N4 _].
  unpack N1; unpack N2; unpack N3; unpack N4.
  destruct (check_quiet k 5 60 ltac:(lia) ltac:(lia) t1 r1 c Hup Hq) as (c1 & E1 & T1).
  destruct (check_room k 5 60 ltac:(lia) ltac:(lia) _ t1 t1 t2 r2 c1 T1) as (c2 & E2 & T2);
    [lia | lia | apart | simpl; lia |].
  destruct (check_room k 5 60 ltac:(lia) ltac:(lia) _ t1 t2 t3 r3 c2 T2) as (c3 & E3 & T3);
    [lia | lia | apart | simpl; lia |].
  destruct (check_room k 5 60 ltac:(lia) ltac:(lia) _ t1 t3 t4 r4 c3 T3) as (c4 & E4 & T4);
    [lia | lia | apart | simpl; lia |].
  destruct (check_room k 5 60 ltac:(lia) ltac:(lia) _ t1 t4 t5 r5 c4 T4) as (c5 & E5 & T5);
    [lia | lia | apart | simpl; lia |].
  pose proof (check_full k 5 60 ltac:(lia) _ t1 t5 t6 r6 c5 T5) as E6.
  destruct (check_quiet k 5 60 ltac:(lia) ltac:(lia) t7 r7 c5) as (c7 & E7 & _).
  { eapply tracking_up, T5. }
  { eapply tracking_quiet; [apply T5 | lia]. }
  simpl. rewrite E1, E2, E3, E4, E5, E6 by (simpl; lia). rewrite E7.
  reflexivity.
Qed.

Lemma limiter_five_per_window_witness :
  map allowed
    (serve [call "ratelimit:ip:10.0.0.7" 5 60 1000 "0.11";
            call "ratelimit:ip:10.0.0.7" 5 60 1000 "0.52";
            call "ratelimit:ip:10.0.0.7" 5 60 2500 "0.11";
            call "ratelimit:ip:10.0.0.7" 5 60 30000 "0.93";
            call "ratelimit:ip:10.0.0.7" 5 60 59000 "0.27";
            call "ratelimit:ip:10.0.0.7" 5 60 60999 "0.64";
            call "ratelimit:ip:10.0.0.7" 5 60 119000 "0.35"]
       (mkConn true ∅)).1
  = [true; true; true; true; true; false; true].
Proof.
  apply limiter_five_per_window; try lia.
  - reflexivity.
  - intros e He. discriminate He.
  - refine (bool_decide_unpack _ _). vm_compute. exact I.
Defined.
End WindowBoundary.

(** ** Two requests in flight *)

Section InFlight.
Import Redis RateLimit Scenario.

(** Giving one request four turns in a row is [checkRateLimit]. *)
Lemma four_turns_are_a_check q1 q2 pc2 c :
  interleave q1 q2 [false; false; false; false] AtPrune pc2 c
  = (Returned (checkRateLimit q1 c).1, pc2, (checkRateLimit q1 c).2).
Proof.
  unfold checkRateLimit. simpl.
  destruct (zremrangebyscore _ _ _ _ c) as [[?|?] c1]; simpl; [|done].
  destruct (zcard _ _ c1) as [[count|?] c2]; simpl; [|done].
  case_bool_decide; simpl; [done|].
  destruct (zadd _ _ _ _ c2) as [[?|?] c3]; simpl; [|done].
  destruct (expire _ _ _ c3) as [[?|?] c4]; simpl; done.
Qed.

(** Served one after the other with one slot left, only the first of
    two requests is admitted. *)
Lemma last_slot_serial k n W seen first last t1 r1 t2 r2 c :
  0 < n → 0 < W →
  tracking k W seen first last c → Z.of_nat (length seen) = n - 1 →
  last ≤ t1 → t1 ≤ t2 → t2 < first + W * 1000 →
  memberOf t1 r1 ∉ seen →
  map allowed (serve [call k n W t1 r1; call k n W t2 r2] c).1 = [true; false].
Proof.
  intros Hn HW T Hlen H1 H2 H3 Hnew.
  destruct (check_room k n W Hn HW seen first last t1 r1 c T) as (c1 & E1 & T1);
    [lia | lia | done | lia |].
  pose proof (check_full k n W Hn _ first t1 t2 r2 c1 T1) as E2.
  simpl. rewrite E1, E2 by (simpl; lia). reflexivity.
Qed.

(** C9. With one slot left under a key, two requests whose commands
    alternate both read a count of four before either records its
    entry, and both are admitted: the key ends with six entries under
    a limit of five. *)
Theorem limiter_race_admits_both :
  (zcard 10000 limiterKey oneSlotLeft).1 = Ok 4 ∧
  let '(pc1, pc2, c) :=
    interleave firstRequest secondRequest alternating AtPrune AtPrune oneSlotLeft in
  allowed <$> finished pc1 = Some true ∧
  allowed <$> finished pc2 = Some true ∧
  (zcard 10000 limiterKey c).1 = Ok 6.
Proof. vm_compute. repeat split. Qed.

(** The same two requests, one after the other: the second is refused. *)
Lemma limiter_serial_refuses_second :
  let '(pc1, pc2, c) :=
    interleave firstRequest secondRequest oneAfterTheOther AtPrune AtPrune oneSlotLeft in
  allowed <$> finished pc1 = Some true ∧
  allowed <$> finished pc2 = Some false ∧
  (zcard 10000 limiterKey c).1 = Ok 5.
Proof. vm_compute. repeat split. Qed.
End InFlight.

(** ** The proof service *)

Section ProofService.
Import Js Zk Scenario.

Section Direct.
Context `{JsEngine}.
Variable fullProve : ProverCall → Result Proof.

(** C2. [generateBalanceProof] with a balance below the threshold
    throws its precondition error and makes no call to the prover; with
    a balance at or above the threshold it calls the prover exactly
    once, on the two amounts, and hands back the proof and public
    signals the prover produced. *)
Theorem balance_proof_precondition (balance threshold : JsValue) (b t : Z)
    (calls : list ProverCall) :
  BigInt balance = Ok b → BigInt threshold = Ok t →
  (b < t →
     generateBalanceProof fullProve balance threshold calls
     = (Throw belowThreshold, calls)) ∧
  (t ≤ b →
     ∃ call,
       (generateBalanceProof fullProve balance threshold calls).2 = calls ++ [call]
       ∧ witness call = JObj [("balance", JStr (pretty b));
                              ("threshold", JStr (pretty t))]
       ∧ (∀ p, fullProve call = Ok p →
            (generateBalanceProof fullProve balance threshold calls).1
            = Ok (mkGenerated (proof p) (publicSignals p)
                    (toString threshold) "balance"))
       ∧ (∀ e, fullProve call = Throw e →
            (generateBalanceProof fullProve balance threshold calls).1 = Throw e)).
Proof.
  intros Hb Ht. unfold generateBalanceProof. rewrite Hb, Ht. split.
  - intros Hlt. by rewrite bool_decide_eq_true_2.
  - intros Hge. rewrite bool_decide_eq_false_2 by lia.
    exists (mkProverCall
              (JObj [("balance", JStr (pretty b)); ("threshold", JStr (pretty t))])
              "circuits/compiled/balance_threshold_js/balance_threshold.wasm"
              "circuits/keys/balance_threshold_final.zkey").
    repeat split.
    + destruct (fullProve _); reflexivity.
    + intros p Hp. by rewrite Hp.
    + intros e He. by rewrite He.
Qed.
End Direct.

Lemma balance_proof_precondition_witness :
  @generateBalanceProof engine prover (JNum 50) (JNum 100) []
  = (Throw belowThreshold, []).
Proof.
  apply (@balance_proof_precondition engine prover (JNum 50) (JNum 100) 50 100 []);
    [reflexivity | reflexivity | lia].
Defined.

Example balance_150_over_100 :
  @generateBalanceProof engine prover (JNum 150) (JNum 100) []
  = (Ok (mkGenerated (JStr "groth16") (JArr [JStr "1"; JStr "100"]) "100" "balance"),
     [mkProverCall (JObj [("balance", JStr "150"); ("threshold", JStr "100")])
        "circuits/compiled/balance_threshold_js/balance_threshold.wasm"
        "circuits/keys/balance_threshold_final.zkey"]).
Proof. vm_compute. reflexivity. Qed.

Example balance_as_digit_strings :
  (@generateBalanceProof engine prover (JStr "99") (JStr "100") []).1
  = Throw belowThreshold.
Proof. vm_compute. reflexivity. Qed.

(** An unknown circuit is turned away before the queue is looked at. *)
Lemma unknown_circuit_rejected maxQueueSize proofId data q :
  getCircuit (circuitId data) = None →
  queueProofGeneration maxQueueSize proofId data q
  = (Throw ("Circuit " +:+ circuitId data +:+ " not found"), q).
Proof. intros Hc. unfold queueProofGeneration. by rewrite Hc. Qed.

(** C6, as amended. For a request that names a known circuit,
    [queueProofGeneration] throws the queue-full error and leaves the
    queue as it was whenever the waiting count has reached
    [maxQueueSize]; below that bound the job is appended to the waiting
    jobs. *)
Theorem proof_queue_bound (maxQueueSize : Z) (proofId : string)
    (data : ProofRequest) (q : Queue) :
  is_Some (getCircuit (circuitId data)) →
  (maxQueueSize ≤ getWaitingCount q →
     queueProofGeneration maxQueueSize proofId data q = (Throw queueFull, q)) ∧
  (getWaitingCount q < maxQueueSize →
     ∃ q', queueProofGeneration maxQueueSize proofId data q = (Ok tt, q')
         ∧ waiting q' = waiting q ++ [data]).
Proof.
  intros [c Hc]. unfold queueProofGeneration. rewrite Hc. split.
  - intros Hfull. by rewrite bool_decide_eq_true_2.
  - intros Hroom. rewrite bool_decide_eq_false_2 by lia.
    eexists. split; reflexivity.
Qed.

Lemma proof_queue_bound_witness :
  queueProofGeneration 2 "proof-7" balanceJob busy = (Throw queueFull, busy).
Proof.
  apply (proof_queue_bound 2 "proof-7" balanceJob busy).
  - exists (mkCircuit "balance" "Balance Threshold Proof" 64 "1-3 seconds").
    reflexivity.
  - vm_compute. discriminate.
Defined.

(** Against C6 as stated: for a circuit that does not exist, the error
    with the queue at its bound is not the queue-full one, and with room
    in the queue the job is not added. *)
Lemma proof_queue_unknown_circuit :
  queueProofGeneration 2 "proof-8" merkleJob busy
    = (Throw "Circuit merkle not found", busy) ∧
  queueProofGeneration 2 "proof-8" merkleJob idle
    = (Throw "Circuit merkle not found", idle).
Proof. split; reflexivity. Qed.
End ProofService.

(** ** The workflow engine *)

Section WorkflowEngine.
Import Js Workflow.
Context `{JsEngine}.
Variable axios : JsValue → Reply.

(** Evaluating conditions touches nothing but the logger. *)
Lemma evaluateConditions_frame cs data w :
  executions (evaluateConditions cs data w).2 = executions w ∧
  workflows (evaluateConditions cs data w).2 = workflows w ∧
  dispatched (evaluateConditions cs data w).2 = dispatched w ∧
  clock (evaluateConditions cs data w).2 = clock w.
Proof.
  revert w. induction cs as [|c cs IH]; intros w; simpl; [done|].
  destruct (label (operator c)); simpl;
    try (match goal with |- context [if ?b then _ else _] => destruct b end;
         [done | apply IH]).
  destruct (IH (logger ("Unknown condition operator: " +:+ operator c) w))
    as (? & ? & ? & ?). done.
Qed.

(** The verdict does not depend on the world it is reached in. *)
Lemma verdict_any_world cs data w1 w2 :
  (evaluateConditions cs data w1).1 = (evaluateConditions cs data w2).1.
Proof.
  revert w1 w2. induction cs as [|c cs IH]; intros w1 w2; simpl; [done|].
  destruct (label (operator c)); simpl;
    try (match goal with |- context [if ?b then _ else _] => destruct b end;
         [done | apply IH]).
  apply IH.
Qed.

(** An action reaches no database row and is dispatched once. *)
Lemma executeAction_frame a data w :
  executions (executeAction axios a data w).2 = executions w ∧
  workflows (executeAction axios a data w).2 = workflows w ∧
  dispatched (executeAction axios a data w).2 = dispatched w ++ [a].
Proof.
  unfold executeAction, executeWebhookAction, executeHttpAction,
    executeEmailAction, executeSolanaTransferAction, request.
  repeat match goal with |- context [if ?b then _ else _] => destruct b end;
    simpl; try done;
    match goal with |- context [answer ?r] => destruct (answer r) end; done.
Qed.

(** The loop reaches no database row; it dispatches its first action
    before anything else. *)
Lemma runActions_frame todo data l w :
  executions (runActions axios todo data l w).2 = executions w ∧
  workflows (runActions axios todo data l w).2 = workflows w ∧
  ∃ more, dispatched (runActions axios todo data l w).2 = dispatched w ++ more
        ∧ ∀ a rest, todo = a :: rest → ∃ more', more = a :: more'.
Proof.
  revert l w. induction todo as [|a todo IH]; intros l w; simpl.
  { repeat split. exists []. split; [by rewrite app_nil_r | done]. }
  destruct (executeAction_frame a data w) as (E1 & E2 & E3).
  destruct (executeAction axios a data w) as [[r|e] w1]; simpl in *.
  - match goal with |- context [runActions axios todo data ?l' w1] =>
      destruct (IH l' w1) as (I1 & I2 & more & I3 & _) end.
    rewrite I1, I2, I3, E1, E2, E3. repeat split.
    exists (a :: more). split; [by rewrite <- app_assoc |].
    intros a0 rest0 [= <- _]. eauto.
  - rewrite E3. repeat split; try done. exists [a]. split; [done|].
    intros a0 rest0 [= <- _]. eauto.
Qed.

(** C3. When the conditions pass and executing the first action A of
    [A; B; C] throws, the engine stops: nothing after A is dispatched,
    the execution is stored as failed with the error that A raised --
    and with an empty result: the entry recorded for A is left behind
    in a local of the [try] block, so the stored [result] has no
    [actions] member. *)
Theorem first_failure_stops_and_drops_results
    (executionId : string) (wf : WorkflowDef) (data : JsValue) (w w1 : World)
    (A : Action) (rest : list Action) (e : string) (row : ExecutionRow) :
  (evaluateConditions (conditions wf) data w).1 = true →
  actions wf = A :: rest →
  executeAction axios A data (evaluateConditions (conditions wf) data w).2
    = (Throw e, w1) →
  executions w !! executionId = Some row →
  (executeWorkflow axios executionId wf data w).1 = Throw e ∧
  dispatched (executeWorkflow axios executionId wf data w).2 = dispatched w ++ [A] ∧
  status <$> executions (executeWorkflow axios executionId wf data w).2 !! executionId
    = Some "failed" ∧
  error <$> executions (executeWorkflow axios executionId wf data w).2 !! executionId
    = Some (Some e) ∧
  result <$> executions (executeWorkflow axios executionId wf data w).2 !! executionId
    = Some (JObj []) ∧
  (λ r, getProp (result r) "actions")
    <$> executions (executeWorkflow axios executionId wf data w).2 !! executionId
    = Some JUndefined.
Proof.
  intros Hpass Hacts HA Hrow.
  destruct (evaluateConditions_frame (conditions wf) data w) as (C1 & _ & C3 & _).
  pose proof (executeAction_frame A data (evaluateConditions (conditions wf) data w).2)
    as (A1 & _ & A3).
  rewrite HA in A1, A3. simpl in A1, A3.
  assert (Hrow1 : executions w1 !! executionId = Some row) by (by rewrite A1, C1).
  assert (Hd : dispatched w1 = dispatched w ++ [A]) by (by rewrite A3, C3).
  unfold executeWorkflow, tryBlock. rewrite Hacts.
  destruct (conditions wf) as [|c cs] eqn:Hcs.
  - simpl in HA. simpl. rewrite HA. simpl.
    rewrite !lookup_alter_eq, Hrow1. simpl. done.
  - destruct (evaluateConditions (c :: cs) data w) as [met wc]. simpl in Hpass, HA.
    subst met. simpl. rewrite HA. simpl.
    rewrite !lookup_alter_eq, Hrow1. simpl. done.
Qed.

(** Conditions that pass lead into the action loop: the execution ends
    as success or failed, and the first action is dispatched. *)
Lemma met_runs_actions executionId wf data w row :
  (evaluateConditions (conditions wf) data w).1 = true →
  executions w !! executionId = Some row →
  (status <$> executions (executeWorkflow axios executionId wf data w).2 !! executionId
     = Some "success"
   ∨ status <$> executions (executeWorkflow axios executionId wf data w).2 !! executionId
     = Some "failed") ∧
  ∀ a rest, actions wf = a :: rest →
    ∃ more, dispatched (executeWorkflow axios executionId wf data w).2
            = dispatched w ++ a :: more.
Proof.
  intros Hpass Hrow.
  destruct (evaluateConditions_frame (conditions wf) data w) as (C1 & _ & C3 & _).
  unfold executeWorkflow, tryBlock.
  assert (Hloop : ∀ l wc, executions wc = executions w → dispatched wc = dispatched w →
    let out := match runActions axios (actions wf) data l wc with
               | (Ok _, l', w1) =>
                   (Ok tt, push "Workflow completed successfully"
                      (updateExecutionStats (id wf) true
                         (updateStatus executionId "success"
                            (Some (JObj [("actions", JArr (results_ l'))])) None
                            (logs_ l') w1)) l',
                    updateExecutionStats (id wf) true
                      (updateStatus executionId "success"
                         (Some (JObj [("actions", JArr (results_ l'))])) None
                         (logs_ l') w1))
               | (Throw e, l', w1) => (Throw e, l', w1)
               end in
    let final := match out with
                 | (Ok _, _, w1) => (Ok tt, w1)
                 | (Throw e, l', w1) =>
                     (Throw e,
                      updateExecutionStats (id wf) false
                        (updateStatus executionId "failed" None (Some e)
                           (logs_ (push ("Workflow failed: " +:+ e) w1 l')) w1))
                 end in
    (status <$> executions final.2 !! executionId = Some "success"
     ∨ status <$> executions final.2 !! executionId = Some "failed") ∧
    ∀ a rest, actions wf = a :: rest →
      ∃ more, dispatched final.2 = dispatched w ++ a :: more).
  { intros l wc Ex Dx.
    destruct (runActions_frame (actions wf) data l wc) as (R1 & _ & more & R3 & R4).
    destruct (runActions axios (actions wf) data l wc) as [[[[]|e] l'] w1];
      simpl in *.
    - split.
      + left. by rewrite lookup_alter_eq, R1, Ex, Hrow.
      + intros a rest Ha. destruct (R4 a rest Ha) as [more' ->].
        exists more'. by rewrite R3, Dx.
    - split.
      + right. by rewrite lookup_alter_eq, R1, Ex, Hrow.
      + intros a rest Ha. destruct (R4 a rest Ha) as [more' ->].
        exists more'. by rewrite R3, Dx. }
  destruct (conditions wf) as [|c cs].
  - apply (Hloop _ w); done.
  - destruct (evaluateConditions (c :: cs) data w) as [met wc].
    simpl in Hpass, C1, C3. subst met. simpl.
    apply (Hloop _ wc); done.
Qed.

(** Conditions that do not pass end the execution as skipped: no action
    is dispatched and the workflow row is not touched. *)
Lemma unmet_skips executionId wf data w row :
  (evaluateConditions (conditions wf) data w).1 = false →
  executions w !! executionId = Some row →
  (executeWorkflow axios executionId wf data w).1 = Ok tt ∧
  status <$> executions (executeWorkflow axios executionId wf data w).2 !! executionId
    = Some "skipped" ∧
  dispatched (executeWorkflow axios executionId wf data w).2 = dispatched w ∧
  workflows (executeWorkflow axios executionId wf data w).2 = workflows w.
Proof.
  intros Hfail Hrow.
  destruct (evaluateConditions_frame (conditions wf) data w) as (C1 & C2 & C3 & _).
  unfold executeWorkflow, tryBlock.
  destruct (conditions wf) as [|c cs]; [done|].
  destruct (evaluateConditions (c :: cs) data w) as [met wc].
  simpl in Hfail, C1, C2, C3. subst met. simpl.
  by rewrite lookup_alter_eq, C1, Hrow, C2, C3.
Qed.

(** What has been logged stays logged: every step only adds lines. *)
Lemma evaluateConditions_logged cs data w :
  ∃ more, logged (evaluateConditions cs data w).2 = logged w ++ more.
Proof.
  revert w. induction cs as [|c cs IH]; intros w; simpl.
  { exists []. by rewrite app_nil_r. }
  destruct (label (operator c)); simpl;
    try (match goal with |- context [if ?b then _ else _] => destruct b end;
         [exists []; by rewrite app_nil_r | apply IH]).
  destruct (IH (logger ("Unknown condition operator: " +:+ operator c) w))
    as [more ->]. simpl. rewrite <- app_assoc. eauto.
Qed.

Lemma executeAction_logged a data w :
  ∃ more, logged (executeAction axios a data w).2 = logged w ++ more.
Proof.
  unfold executeAction, executeWebhookAction, executeHttpAction,
    executeEmailAction, executeSolanaTransferAction, request.
  repeat match goal with |- context [if ?b then _ else _] => destruct b end;
    simpl; eauto;
    try (match goal with |- context [answer ?r] => destruct (answer r) end; simpl);
    exists []; by rewrite app_nil_r.
Qed.

Lemma runActions_logged todo data l w :
  ∃ more, logged (runActions axios todo data l w).2 = logged w ++ more.
Proof.
  revert l w. induction todo as [|a todo IH]; intros l w; simpl.
  { exists []. by rewrite app_nil_r. }
  destruct (executeAction_logged a data w) as [first E].
  destruct (executeAction axios a data w) as [[r|e] w1]; simpl in *.
  - match goal with |- context [runActions axios todo data ?l' w1] =>
      destruct (IH l' w1) as [more ->] end.
    rewrite E, <- app_assoc. eauto.
  - eauto.
Qed.

(** The lines logged while the conditions are evaluated are still there
    when the execution ends. *)
Lemma executeWorkflow_logged executionId wf data w :
  ∃ more, logged (executeWorkflow axios executionId wf data w).2
          = logged (evaluateConditions (conditions wf) data w).2 ++ more.
Proof.
  assert (Hloop : ∀ l wc,
    ∃ more,
      logged (match
                match runActions axios (actions wf) data l wc with
                | (Ok _, l', w1) =>
                    (Ok tt, push "Workflow completed successfully"
                       (updateExecutionStats (id wf) true
                          (updateStatus executionId "success"
                             (Some (JObj [("actions", JArr (results_ l'))])) None
                             (logs_ l') w1)) l',
                     updateExecutionStats (id wf) true
                       (updateStatus executionId "success"
                          (Some (JObj [("actions", JArr (results_ l'))])) None
                          (logs_ l') w1))
                | (Throw e, l', w1) => (Throw e, l', w1)
                end
              with
              | (Ok _, _, w1) => (Ok tt, w1)
              | (Throw e, l', w1) =>
                  (Throw e,
                   updateExecutionStats (id wf) false
                     (updateStatus executionId "failed" None (Some e)
                        (logs_ (push ("Workflow failed: " +:+ e) w1 l')) w1))
              end).2 = logged wc ++ more).
  { intros l wc. destruct (runActions_logged (actions wf) data l wc) as [more E].
    destruct (runActions axios (actions wf) data l wc) as [[[[]|e] l'] w1];
      simpl in *; eauto. }
  unfold executeWorkflow, tryBlock.
  destruct (conditions wf) as [|c cs].
  - apply Hloop.
  - destruct (evaluateConditions (c :: cs) data w) as [[] wc]; simpl.
    + apply Hloop.
    + exists []. by rewrite app_nil_r.
Qed.

Lemma unknown_label op : op ∉ supported → label op = Unknown.
Proof.
  intros Hn. unfold supported in Hn.
  repeat (let X := fresh in apply not_elem_of_cons in Hn as [X Hn]).
  assert (E : ∀ s, op ≠ s → String.eqb op s = false)
    by (intros; by apply String.eqb_neq).
  unfold label. by rewrite !E.
Qed.

(** C10. A condition whose operator is none of the supported names
    never makes the conditions unmet: dropping it from any list leaves
    the verdict as it was; on its own it passes and is logged, the log
    gaining the one line that names the operator; in any list that line
    is logged whenever the conditions before it pass; and a workflow
    whose only condition it is goes on to its actions, the line in its
    log. *)
Theorem unknown_operator_never_unmet (c : Condition) :
  operator c ∉ supported →
  (∀ before after data w,
     (evaluateConditions (before ++ c :: after) data w).1
     = (evaluateConditions (before ++ after) data w).1) ∧
  (∀ data w,
     evaluateConditions [c] data w
     = (true, logger ("Unknown condition operator: " +:+ operator c) w) ∧
     logged (evaluateConditions [c] data w).2
     = logged w ++ ["Unknown condition operator: " +:+ operator c]) ∧
  (∀ before after data w,
     (evaluateConditions before data w).1 = true →
     ∃ earlier later,
       logged (evaluateConditions (before ++ c :: after) data w).2
       = logged w ++ earlier
           ++ ("Unknown condition operator: " +:+ operator c) :: later) ∧
  (∀ executionId wf data w row,
     conditions wf = [c] → executions w !! executionId = Some row →
     (status <$> executions (executeWorkflow axios executionId wf data w).2
                   !! executionId = Some "success"
      ∨ status <$> executions (executeWorkflow axios executionId wf data w).2
                     !! executionId = Some "failed") ∧
     (∀ a rest, actions wf = a :: rest →
        ∃ more, dispatched (executeWorkflow axios executionId wf data w).2
                = dispatched w ++ a :: more) ∧
     ∃ later, logged (executeWorkflow axios executionId wf data w).2
              = logged w
                  ++ ("Unknown condition operator: " +:+ operator c) :: later).
Proof.
  intros Hop. apply unknown_label in Hop. split; [|split; [|split]].
  - intros before after data. induction before as [|b before IH]; intros w.
    + simpl. rewrite Hop. apply verdict_any_world.
    + simpl. destruct (label (operator b)); simpl;
        try (match goal with |- context [if ?b then _ else _] => destruct b end;
             [done | apply IH]).
      apply IH.
  - intros data w. simpl. by rewrite Hop.
  - intros before after data. induction before as [|b before IH]; intros w Hpass.
    + simpl. rewrite Hop.
      destruct (evaluateConditions_logged after data
                  (logger ("Unknown condition operator: " +:+ operator c) w))
        as [later ->].
      exists [], later. simpl. by rewrite <- app_assoc.
    + simpl in Hpass |- *. destruct (label (operator b)); simpl in *;
        try (match goal with |- context [if ?b then _ else _] => destruct b end;
             [done | by apply IH]).
      destruct (IH _ Hpass) as (earlier & later & ->).
      exists (("Unknown condition operator: " +:+ operator b) :: earlier), later.
      simpl. by rewrite <- app_assoc.
  - intros executionId wf data w row Hcs Hrow.
    assert (Hpass : (evaluateConditions (conditions wf) data w).1 = true)
      by (rewrite Hcs; simpl; by rewrite Hop).
    destruct (met_runs_actions executionId wf data w row Hpass Hrow) as [Hs Hd].
    split; [done | split; [done |]].
    destruct (executeWorkflow_logged executionId wf data w) as [later ->].
    rewrite Hcs. simpl. rewrite Hop. simpl.
    exists later. by rewrite <- app_assoc.
Qed.

(** Once a segment of the path is missing, the walk stays at
    [undefined]. *)
Lemma undefined_propagates segments : foldl getProp JUndefined segments = JUndefined.
Proof. induction segments as [|s segments IH]; simpl; done. Qed.

Lemma not_listed key names : key ∉ names → existsb (String.eqb key) names = false.
Proof.
  intros Hn. apply Bool.not_true_is_false. intros Hex.
  apply existsb_exists in Hex as (name & Hin & Heq).
  apply String.eqb_eq in Heq as <-. by apply Hn, list_elem_of_In.
Qed.

(** A path whose first segment names neither a property of the data nor
    a member of [Object.prototype] leads to [undefined]. *)
Lemma missing_path_is_undefined props path segment more :
  split "." path = segment :: more →
  owns props segment = false →
  segment ∉ objectPrototype →
  getNestedValue (JObj props) path = JUndefined.
Proof.
  intros Hsplit Hown Hproto. unfold getNestedValue. rewrite Hsplit.
  cbn [foldl getProp]. rewrite Hown, (not_listed _ _ Hproto).
  apply undefined_propagates.
Qed.

Lemma lessEq_undefined_l target : lessEq JUndefined target = false.
Proof. unfold lessEq. simpl. by destruct (toPrimitive target). Qed.

Lemma lessEq_undefined_r v : lessEq v JUndefined = false.
Proof.
  unfold lessEq. simpl.
  destruct (toPrimitive v); simpl; try done;
    match goal with |- context [match ?x with _ => _ end] => by destruct x end.
Qed.

(** C4. A [greater_than] or [less_than] condition over a field that the
    trigger data does not have is not unmet: [undefined <= target] and
    [undefined >= target] are both false, so the condition is passed
    over and the rest of the list decides. A workflow whose only
    condition it is runs its actions. *)
Theorem missing_field_passes_comparisons
    (c : Condition) (rest : list Condition) (data : JsValue) (w : World) :
  getNestedValue data (pathOf c) = JUndefined →
  operator c ∈ ["greater_than"; "gt"; "less_than"; "lt"] →
  evaluateConditions (c :: rest) data w = evaluateConditions rest data w ∧
  ∀ executionId wf row,
    conditions wf = [c] → executions w !! executionId = Some row →
    (status <$> executions (executeWorkflow axios executionId wf data w).2
                  !! executionId = Some "success"
     ∨ status <$> executions (executeWorkflow axios executionId wf data w).2
                    !! executionId = Some "failed") ∧
    ∀ a others, actions wf = a :: others →
      ∃ more, dispatched (executeWorkflow axios executionId wf data w).2
              = dispatched w ++ a :: more.
Proof.
  intros Hmiss Hop.
  assert (Hstep : ∀ rest' w', evaluateConditions (c :: rest') data w'
                              = evaluateConditions rest' data w').
  { intros rest' w'. simpl. rewrite Hmiss.
    repeat (apply elem_of_cons in Hop as [-> | Hop]);
      [ .. | by apply elem_of_nil in Hop]; simpl;
      unfold greaterEq; by rewrite ?lessEq_undefined_l, ?lessEq_undefined_r. }
  split; [apply Hstep|].
  intros executionId wf row Hcs Hrow.
  eapply met_runs_actions; [|done]. rewrite Hcs, Hstep. done.
Qed.

(** What fails as intended on a missing field: [equals] against a
    defined target, and [exists]. *)
Lemma missing_field_fails_equals_exists
    (c : Condition) (rest : list Condition) (data : JsValue) (w : World) :
  getNestedValue data (pathOf c) = JUndefined →
  (operator c ∈ ["equals"; "eq"] ∧ value c ≠ JUndefined) ∨ operator c = "exists" →
  evaluateConditions (c :: rest) data w = (false, w).
Proof.
  intros Hmiss [[Hop Hv] | Hop]; simpl; rewrite Hmiss.
  - repeat (apply elem_of_cons in Hop as [-> | Hop]);
      [ .. | by apply elem_of_nil in Hop]; simpl; by destruct (value c).
  - by rewrite Hop.
Qed.

(** One run whose conditions pass ends as success or as failed, returns
    or throws accordingly, and adds exactly one to the workflow's
    execution count, storing the outcome as its last status. *)
Lemma met_updates_stats_once executionId wf data w row stats :
  (evaluateConditions (conditions wf) data w).1 = true →
  executions w !! executionId = Some row →
  workflows w !! id wf = Some stats →
  ∃ row',
    executions (executeWorkflow axios executionId wf data w).2 !! executionId
      = Some row' ∧
    ((executeWorkflow axios executionId wf data w).1 = Ok tt ∧
     status row' = "success" ∧
     workflows (executeWorkflow axios executionId wf data w).2 !! id wf
       = Some (mkStats (execution_count stats + 1)
                 (Some (clock (executeWorkflow axios executionId wf data w).2))
                 (Some "success"))
     ∨ (∃ e, (executeWorkflow axios executionId wf data w).1 = Throw e) ∧
       status row' = "failed" ∧
       workflows (executeWorkflow axios executionId wf data w).2 !! id wf
         = Some (mkStats (execution_count stats + 1)
                   (Some (clock (executeWorkflow axios executionId wf data w).2))
                   (Some "failed"))).
Proof.
  intros Hv Hrow Hstats.
  destruct (evaluateConditions_frame (conditions wf) data w) as (C1 & C2 & _ & _).
  assert (Hloop : ∀ l wc, executions wc = executions w → workflows wc = workflows w →
    let final :=
      match
        match runActions axios (actions wf) data l wc with
        | (Ok _, l', w1) =>
            (Ok tt, push "Workflow completed successfully"
               (updateExecutionStats (id wf) true
                  (updateStatus executionId "success"
                     (Some (JObj [("actions", JArr (results_ l'))])) None
                     (logs_ l') w1)) l',
             updateExecutionStats (id wf) true
               (updateStatus executionId "success"
                  (Some (JObj [("actions", JArr (results_ l'))])) None
                  (logs_ l') w1))
        | (Throw e, l', w1) => (Throw e, l', w1)
        end
      with
      | (Ok _, _, w1) => (Ok tt, w1)
      | (Throw e, l', w1) =>
          (Throw e,
           updateExecutionStats (id wf) false
             (updateStatus executionId "failed" None (Some e)
                (logs_ (push ("Workflow failed: " +:+ e) w1 l')) w1))
      end in
    ∃ row',
      executions final.2 !! executionId = Some row' ∧
      (final.1 = Ok tt ∧ status row' = "success" ∧
       workflows final.2 !! id wf
         = Some (mkStats (execution_count stats + 1) (Some (clock final.2))
                   (Some "success"))
       ∨ (∃ e, final.1 = Throw e) ∧ status row' = "failed" ∧
         workflows final.2 !! id wf
           = Some (mkStats (execution_count stats + 1) (Some (clock final.2))
                     (Some "failed")))).
  { intros l wc Ex Wx.
    destruct (runActions_frame (actions wf) data l wc) as (R1 & R2 & _).
    destruct (runActions axios (actions wf) data l wc) as [[[[]|e] l'] w1];
      simpl in *; rewrite !lookup_alter_eq, R1, Ex, Hrow, R2, Wx, Hstats; simpl;
      eexists; (split; [reflexivity|]); [left | right]; eauto. }
  unfold executeWorkflow, tryBlock.
  destruct (conditions wf) as [|c cs].
  - apply (Hloop _ w); done.
  - destruct (evaluateConditions (c :: cs) data w) as [met wc].
    simpl in Hv, C1, C2. subst met. simpl.
    apply (Hloop _ wc); done.
Qed.
End WorkflowEngine.

(** ** The workflow queue *)

Section WorkflowQueue.
Import Js Workflow.
Context `{JsEngine}.
Variable network : nat → JsValue → Reply.
Variable maxRetries : Z.
Variable backoff : nat → Z.

(** A job whose conditions pass, from any of its runs on: every run made
    adds one to the execution count; the job ends at the first run that
    returns, or failed when no run is left. *)
Lemma work_counts_every_run more :
  ∀ made executionId wf data w row stats,
    (evaluateConditions (conditions wf) data w).1 = true →
    executions w !! executionId = Some row →
    workflows w !! id wf = Some stats →
    ∃ row',
      executions (work network backoff more made executionId wf data w).1.2
        !! executionId = Some row' ∧
      (made < (work network backoff more made executionId wf data w).2
         ≤ made + more + 1)%nat ∧
      ((work network backoff more made executionId wf data w).1.1 = Ok tt ∧
       status row' = "success" ∧
       workflows (work network backoff more made executionId wf data w).1.2 !! id wf
         = Some (mkStats
                   (execution_count stats
                    + Z.of_nat ((work network backoff more made executionId wf data w).2
                                - made))
                   (Some (clock (work network backoff more made executionId wf data w).1.2))
                   (Some "success"))
       ∨ (∃ e, (work network backoff more made executionId wf data w).1.1 = Throw e) ∧
         (work network backoff more made executionId wf data w).2
           = (made + more + 1)%nat ∧
         status row' = "failed" ∧
         workflows (work network backoff more made executionId wf data w).1.2 !! id wf
           = Some (mkStats
                     (execution_count stats
                      + Z.of_nat ((work network backoff more made executionId wf data w).2
                                  - made))
                     (Some (clock (work network backoff more made executionId wf data w).1.2))
                     (Some "failed"))).
Proof.
  induction more as [|more IH]; intros made executionId wf data w row stats Hv Hrow Hstats;
    destruct (met_updates_stats_once (network made) executionId wf data w row stats
                Hv Hrow Hstats) as (row' & Hr & Hout);
    simpl; unfold processor;
    destruct (executeWorkflow (network made) executionId wf data w) as [[[]|e] w1];
    simpl in *.
  - destruct Hout as [(_ & Hs & Hw) | ((e & He) & _)]; [|done].
    exists row'. split; [done|]. split; [lia|]. left.
    rewrite Hw. repeat split; try done. do 2 f_equal. lia.
  - destruct Hout as [(He & _) | (_ & Hs & Hw)]; [done|].
    exists row'. split; [done|]. split; [lia|]. right.
    rewrite Hw. split; [eauto|]. split; [lia|]. split; [done|]. do 2 f_equal. lia.
  - destruct Hout as [(_ & Hs & Hw) | ((e & He) & _)]; [|done].
    exists row'. split; [done|]. split; [lia|]. left.
    rewrite Hw. repeat split; try done. do 2 f_equal. lia.
  - destruct Hout as [(He & _) | (_ & Hs & Hw)]; [done|].
    set (w2 := tick (backoff (S made)) (logger "Workflow execution failed:" w1)).
    assert (Hv2 : (evaluateConditions (conditions wf) data w2).1 = true)
      by (by rewrite (verdict_any_world _ _ w2 w)).
    destruct (IH (S made) executionId wf data w2 row' _ Hv2 Hr Hw)
      as (row2 & Hr2 & Hn & Hout).
    exists row2. split; [done|]. split; [lia|].
    destruct Hout as [(Hok & Hs2 & Hw2) | (Hthrow & Hn2 & Hs2 & Hw2)]; [left | right];
      rewrite Hw2; simpl; repeat split; try done; try lia; do 2 f_equal; lia.
Qed.

(** C8, as amended. Every run of an execution that ends as success or as
    failed adds exactly one to the workflow's execution count and stores
    its outcome as the last status; a run that ends as skipped leaves the
    workflow's statistics as they were. The queue runs a skipped
    execution once, and any other until a run succeeds or
    [config.workflow.maxRetries] runs have failed: the count grows by
    the number of runs made, and the last status is the outcome of the
    last one. *)
Theorem stats_updated_once_per_run
    (executionId : string) (wf : WorkflowDef) (data : JsValue) (w : World)
    (row : ExecutionRow) (stats : WorkflowRow) :
  executions w !! executionId = Some row →
  workflows w !! id wf = Some stats →
  (∀ axios,
     let w1 := (executeWorkflow axios executionId wf data w).2 in
     (status <$> executions w1 !! executionId = Some "success" ∧
      workflows w1 !! id wf
        = Some (mkStats (execution_count stats + 1) (Some (clock w1)) (Some "success")))
     ∨ (status <$> executions w1 !! executionId = Some "failed" ∧
        workflows w1 !! id wf
          = Some (mkStats (execution_count stats + 1) (Some (clock w1)) (Some "failed")))
     ∨ (status <$> executions w1 !! executionId = Some "skipped" ∧
        workflows w1 = workflows w)) ∧
  let out := runJob network maxRetries backoff executionId wf data w in
  let runs := out.2 in
  let w' := out.1.2 in
  (status <$> executions w' !! executionId = Some "skipped" ∧
   out.1.1 = Ok tt ∧ runs = 1%nat ∧ workflows w' = workflows w)
  ∨ (status <$> executions w' !! executionId = Some "success" ∧
     out.1.1 = Ok tt ∧
     (1 ≤ runs ≤ Z.to_nat (Z.max 1 maxRetries))%nat ∧
     workflows w' !! id wf
       = Some (mkStats (execution_count stats + Z.of_nat runs) (Some (clock w'))
                 (Some "success")))
  ∨ (status <$> executions w' !! executionId = Some "failed" ∧
     (∃ e, out.1.1 = Throw e) ∧
     runs = Z.to_nat (Z.max 1 maxRetries) ∧
     workflows w' !! id wf
       = Some (mkStats (execution_count stats + Z.of_nat runs) (Some (clock w'))
                 (Some "failed"))).
Proof.
  intros Hrow Hstats. split.
  { intros axios w1. subst w1.
    destruct ((evaluateConditions (conditions wf) data w).1) eqn:Hv.
    - destruct (met_updates_stats_once axios executionId wf data w row stats
                  Hv Hrow Hstats) as (row' & Hr & [(_ & Hs & Hw) | (_ & Hs & Hw)]);
        [left | right; left]; rewrite Hr, Hw; simpl; by rewrite Hs.
    - right; right.
      destruct (unmet_skips axios executionId wf data w row Hv Hrow)
        as (_ & Hs & _ & Hw). done. }
  intros out runs w'. subst runs w' out. unfold runJob.
  destruct ((evaluateConditions (conditions wf) data w).1) eqn:Hv.
  - destruct (work_counts_every_run (Z.to_nat (maxRetries - 1)) 0 executionId wf
                data w row stats Hv Hrow Hstats) as (row' & Hr & Hn & Hout).
    rewrite Nat.sub_0_r in Hout.
    destruct Hout as [(Hok & Hs & Hw) | (Hthrow & Hruns & Hs & Hw)]; right; [left | right];
      rewrite Hr, Hw; simpl; rewrite Hs; repeat split; try done; lia.
  - left.
    destruct (unmet_skips (network 0%nat) executionId wf data w row Hv Hrow)
      as (Hok & Hs & _ & Hw).
    destruct (Z.to_nat (maxRetries - 1)); simpl; unfold processor;
      destruct (executeWorkflow (network 0%nat) executionId wf data w) as [[[]|e] w1];
      simpl in *; done.
Qed.
End WorkflowQueue.

Section WorkflowExamples.
Import Js Workflow Scenario.

Local Abbreviation run := (@executeWorkflow engine).

Lemma first_failure_stops_and_drops_results_witness :
  (run refusing "exec-1" threeSteps (JObj []) store).1
    = Throw "connect ECONNREFUSED 10.0.0.9:443" ∧
  dispatched (run refusing "exec-1" threeSteps (JObj []) store).2 = [] ++ [notify] ∧
  status <$> executions (run refusing "exec-1" threeSteps (JObj []) store).2 !! "exec-1"
    = Some "failed" ∧
  error <$> executions (run refusing "exec-1" threeSteps (JObj []) store).2 !! "exec-1"
    = Some (Some "connect ECONNREFUSED 10.0.0.9:443") ∧
  result <$> executions (run refusing "exec-1" threeSteps (JObj []) store).2 !! "exec-1"
    = Some (JObj []) ∧
  (λ r, @getProp engine (result r) "actions")
    <$> executions (run refusing "exec-1" threeSteps (JObj []) store).2 !! "exec-1"
    = Some JUndefined.
Proof.
  apply (@first_failure_stops_and_drops_results engine refusing "exec-1" threeSteps
           (JObj []) store (@executeAction engine refusing notify (JObj []) store).2
           notify [mail; transfer]
           "connect ECONNREFUSED 10.0.0.9:443" running); reflexivity.
Defined.

(** The entry for A exists while the loop runs; it is the [catch] that
    has no access to it. *)
Example failure_entry_is_built_then_lost :
  results_ (@runActions engine refusing [notify; mail; transfer] (JObj [])
              (mkLocals [] []) store).1.2
  = [JObj [("action", JStr "webhook"); ("success", JBool false);
           ("error", JStr "connect ECONNREFUSED 10.0.0.9:443")]].
Proof. reflexivity. Qed.

Lemma missing_field_passes_comparisons_witness :
  @evaluateConditions engine [amountOver100] (JObj []) store
  = @evaluateConditions engine [] (JObj []) store.
Proof.
  apply (@missing_field_passes_comparisons engine accepting amountOver100 []
           (JObj []) store); [reflexivity | constructor].
Defined.

(** The gate [amount > 100] against three payloads. *)
Example gate_amount_50_skipped :
  status <$> executions (run accepting "exec-1" gated
                           (JObj [("amount", JNum 50)]) store).2 !! "exec-1"
    = Some "skipped" ∧
  dispatched (run accepting "exec-1" gated (JObj [("amount", JNum 50)]) store).2 = [].
Proof. split; reflexivity. Qed.

Example gate_amount_150_runs :
  status <$> executions (run accepting "exec-1" gated
                           (JObj [("amount", JNum 150)]) store).2 !! "exec-1"
    = Some "success" ∧
  dispatched (run accepting "exec-1" gated (JObj [("amount", JNum 150)]) store).2
    = [mail].
Proof. split; reflexivity. Qed.

Example gate_amount_missing_runs :
  status <$> executions (run accepting "exec-1" gated (JObj []) store).2 !! "exec-1"
    = Some "success" ∧
  dispatched (run accepting "exec-1" gated (JObj []) store).2 = [mail].
Proof. split; reflexivity. Qed.

(** A path is looked up along the prototype chain as well: on any
    object [constructor] finds the [Object] function unless the data has
    a property of that name, so an [exists] condition on it is met by
    empty trigger data. *)
Example inherited_member_is_found :
  @getNestedValue engine (JObj []) "constructor" = JNative "Object" ∧
  @getNestedValue engine (JObj [("constructor", JNum 1)]) "constructor" = JNum 1 ∧
  @getNestedValue engine (JObj []) "amount" = JUndefined ∧
  (@evaluateConditions engine
     [mkCondition (Some "constructor") "any" "exists" JNull] (JObj []) store).1 = true.
Proof. repeat split; reflexivity. Qed.

(** [String(undefined)] is the text "undefined", which has "fin" in it. *)
Example contains_on_missing_field_passes :
  (@evaluateConditions engine [memoMentionsFin] (JObj []) store).1 = true.
Proof. reflexivity. Qed.

Lemma unknown_operator_never_unmet_witness :
  @evaluateConditions engine [officeHours] (JObj []) store
  = (true, logger "Unknown condition operator: between" store) ∧
  logged (@evaluateConditions engine [officeHours] (JObj []) store).2
  = logged store ++ ["Unknown condition operator: between"].
Proof.
  apply (@unknown_operator_never_unmet engine accepting officeHours).
  repeat (apply not_elem_of_cons; split; [discriminate|]). apply not_elem_of_nil.
Defined.

Example unknown_operator_workflow_runs :
  status <$> executions (run accepting "exec-1" timed (JObj []) store).2 !! "exec-1"
    = Some "success" ∧
  dispatched (run accepting "exec-1" timed (JObj []) store).2 = [mail] ∧
  logged (run accepting "exec-1" timed (JObj []) store).2
    = ["Unknown condition operator: between"; "Email action:"].
Proof. repeat split; reflexivity. Qed.

Local Abbreviation job := (@runJob engine).

Lemma stats_updated_once_per_run_witness :
  let out := job down 3 exponential "exec-1" threeSteps (JObj []) store in
  let runs := out.2 in
  let w' := out.1.2 in
  (status <$> executions w' !! "exec-1" = Some "skipped" ∧
   out.1.1 = Ok tt ∧ runs = 1%nat ∧ workflows w' = workflows store)
  ∨ (status <$> executions w' !! "exec-1" = Some "success" ∧
     out.1.1 = Ok tt ∧
     (1 ≤ runs ≤ Z.to_nat (Z.max 1 3))%nat ∧
     workflows w' !! "wf-1"
       = Some (mkStats (7 + Z.of_nat runs) (Some (clock w')) (Some "success")))
  ∨ (status <$> executions w' !! "exec-1" = Some "failed" ∧
     (∃ e, out.1.1 = Throw e) ∧
     runs = Z.to_nat (Z.max 1 3) ∧
     workflows w' !! "wf-1"
       = Some (mkStats (7 + Z.of_nat runs) (Some (clock w')) (Some "failed"))).
Proof.
  apply (@stats_updated_once_per_run engine down 3 exponential "exec-1" threeSteps
           (JObj []) store running sevenRuns); reflexivity.
Defined.

(** With the peer down throughout, the three runs of the job each count:
    the execution ends failed and the workflow shows ten executions
    where it showed seven. *)
Example failed_execution_counts_three_runs :
  (job down 3 exponential "exec-1" threeSteps (JObj []) store).2 = 3%nat ∧
  status <$> executions (job down 3 exponential "exec-1" threeSteps (JObj []) store).1.2
               !! "exec-1" = Some "failed" ∧
  workflows (job down 3 exponential "exec-1" threeSteps (JObj []) store).1.2 !! "wf-1"
    = Some (mkStats 10 (Some 5015) (Some "failed")) ∧
  dispatched (job down 3 exponential "exec-1" threeSteps (JObj []) store).1.2
    = [notify; notify; notify].
Proof. repeat split; reflexivity. Qed.

(** With the peer back for the second run, the execution ends as success
    after two runs, and both are counted. *)
Example retried_execution_counts_two_runs :
  (job backForSecondRun 3 exponential "exec-1" threeSteps (JObj []) store).2 = 2%nat ∧
  status <$> executions
               (job backForSecondRun 3 exponential "exec-1" threeSteps (JObj []) store).1.2
               !! "exec-1" = Some "success" ∧
  execution_count
    <$> workflows
          (job backForSecondRun 3 exponential "exec-1" threeSteps (JObj []) store).1.2
        !! "wf-1" = Some 9.
Proof. repeat split; reflexivity. Qed.

(** Against C8 as stated: after a skipped execution the workflow's count
    and last status are what they were, and after an execution that
    fails at each of its three runs the count has grown by three. *)
Lemma stats_not_once_per_execution :
  (status <$> executions (job down 3 exponential "exec-1" gated
                            (JObj [("amount", JNum 50)]) store).1.2 !! "exec-1"
     = Some "skipped" ∧
   workflows (job down 3 exponential "exec-1" gated
                (JObj [("amount", JNum 50)]) store).1.2 !! "wf-1" = Some sevenRuns ∧
   execution_count
     <$> workflows (job down 3 exponential "exec-1" gated
                      (JObj [("amount", JNum 50)]) store).1.2 !! "wf-1"
     ≠ Some (7 + 1)) ∧
  (status <$> executions (job down 3 exponential "exec-1" threeSteps
                            (JObj []) store).1.2 !! "exec-1"
     = Some "failed" ∧
   execution_count
     <$> workflows (job down 3 exponential "exec-1" threeSteps
                      (JObj []) store).1.2 !! "wf-1" = Some (7 + 3) ∧
   execution_count
     <$> workflows (job down 3 exponential "exec-1" threeSteps
                      (JObj []) store).1.2 !! "wf-1" ≠ Some (7 + 1)).
Proof.
  split; (split; [reflexivity | split; [reflexivity | discriminate]]).
Qed.

(** One run of a skipped execution, as [executeWorkflow] leaves it. *)
Example skipped_execution_updates_no_stats :
  status <$> executions (run accepting "exec-1" gated
                           (JObj [("amount", JNum 50)]) store).2 !! "exec-1"
    = Some "skipped" ∧
  workflows (run accepting "exec-1" gated (JObj [("amount", JNum 50)]) store).2
    !! "wf-1" = Some sevenRuns.
Proof. split; reflexivity. Qed.
End WorkflowExamples.

(** ** Webhook delivery *)

Section WebhookDelivery.
Import Js Webhook.
Context `{JsEngine}.
Variable createHmacSignature : JsValue → string → string.
Variable timeoutMs : Z.
Variable receiver : JsValue → Reply.

(** C7, as amended. [deliverWebhook] succeeds exactly on the statuses in
    [200,300), and then stores success with the response code and the
    first 1000 characters of the body. On every other status the attempt
    throws and the delivery is stored as failed, its attempt count
    untouched. For such a status below 500 an update carrying the
    response code and the truncated body is issued before the error is
    raised; a status of 500 or more is rejected by the client itself, and
    the one update issued carries the error message and no response code
    or body. *)
Theorem delivery_outcome_by_status
    (deliveryId : string) (hook : Hook) (event : string) (payload : JsValue)
    (attemptNo : Z) (w : World) (row : DeliveryRow) (s : Z) (json : string) :
  (∀ o, receipt (receiver o) = Responded s json) →
  deliveries w !! deliveryId = Some row →
  let out := deliverWebhook createHmacSignature timeoutMs receiver deliveryId hook event
               payload attemptNo w in
  ((∃ d, out.1 = Ok d) ↔ 200 ≤ s < 300) ∧
  (200 ≤ s < 300 →
     ∃ d, deliveries out.2 !! deliveryId
          = Some (mkDelivery "success" (Some s) (Some (String.substring 0 1000 json))
                    None (Some d) (attempt row) (Some (clock out.2)))) ∧
  (¬ 200 ≤ s < 300 →
     (∃ e, out.1 = Throw e) ∧
     status <$> deliveries out.2 !! deliveryId = Some "failed" ∧
     attempt <$> deliveries out.2 !! deliveryId = Some (attempt row)) ∧
  (¬ 200 ≤ s < 300 → s < 500 →
     ∃ d later,
       issued out.2
       = issued w ++ (deliveryId,
                      mkUpdate "failed" (Some s)
                        (Some (String.substring 0 1000 json)) None (Some d))
                     :: later) ∧
  (500 ≤ s →
     ∃ d, issued out.2
          = issued w ++ [(deliveryId,
                          mkUpdate "failed" None None
                            (Some ("Request failed with status code " +:+ pretty s))
                            (Some d))]
        ∧ response_code <$> deliveries out.2 !! deliveryId = Some None
        ∧ response_body <$> deliveries out.2 !! deliveryId = Some None).
Proof.
  intros Hr Hrow out. subst out.
  unfold deliverWebhook, attemptDelivery, post. rewrite Hr.
  destruct (decide (s < 500)) as [Hlt|Hge].
  - rewrite (bool_decide_eq_true_2 _ Hlt). simpl.
    destruct (decide (200 ≤ s < 300)) as [H2|H2].
    + rewrite !bool_decide_eq_true_2 by lia. simpl.
      split; [split; [done | eauto]|].
      split; [intros _; eexists; by rewrite lookup_alter_eq, Hrow|].
      split; [done|]. split; [done | lia].
    + assert (bool_decide (200 ≤ s) && bool_decide (s < 300) = false) as ->.
      { apply andb_false_iff.
        destruct (decide (200 ≤ s)); [right | left];
          apply bool_decide_eq_false_2; lia. }
      simpl. split; [split; [by intros [d ?] | done]|].
      split; [done|].
      split; [intros _; split; [eauto|];
              by rewrite !lookup_alter_eq, Hrow|].
      split; [|lia]. intros _ _. eexists _, _. by rewrite <- app_assoc.
  - rewrite (bool_decide_eq_false_2 _ Hge). simpl.
    split; [split; [by intros [d ?] | lia]|].
    split; [lia|].
    split; [intros _; split; [eauto|]; by rewrite !lookup_alter_eq, Hrow|].
    split; [lia|]. intros _. eexists. split; [done|].
    by rewrite !lookup_alter_eq, Hrow.
Qed.
End WebhookDelivery.

Section WebhookExamples.
Import Js Webhook Scenario.

Local Abbreviation deliver :=
  (λ receiver, @deliverWebhook engine signer 10000 receiver "dlv-1" subscriber
                 "payment.settled" (JObj [("amount", JNum 12)]) 1 outbox).

Lemma delivery_outcome_by_status_witness :
  (∃ d, (deliver (answering 204 "null")).1 = Ok d) ↔ 200 ≤ 204 < 300.
Proof.
  apply (@delivery_outcome_by_status engine signer 10000 (answering 204 "null") "dlv-1"
           subscriber "payment.settled" (JObj [("amount", JNum 12)]) 1 outbox
           pending 204 "null"); reflexivity.
Defined.

(** Against C7 as stated: on a 503 the delivery ends failed and the
    attempt throws, but no update ever carries the response code or the
    body, and the stored row has neither. *)
Lemma delivery_503_records_no_response :
  (deliver (answering 503 "[503]")).1
    = Throw "Request failed with status code 503" ∧
  issued (deliver (answering 503 "[503]")).2
    = [("dlv-1", mkUpdate "failed" None None
                   (Some "Request failed with status code 503") (Some 120))] ∧
  deliveries (deliver (answering 503 "[503]")).2 !! "dlv-1"
    = Some (mkDelivery "failed" None None
              (Some "Request failed with status code 503") (Some 120) 1 (Some 5120)).
Proof. vm_compute. repeat split. Qed.

(** On a 404 the code and body are written and then overwritten by the
    update of the [catch] block, which the error raised for the status
    passes through. *)
Example delivery_404_overwrites_response :
  issued (deliver (answering 404 "{}")).2
    = [("dlv-1", mkUpdate "failed" (Some 404) (Some "{}") None (Some 120));
       ("dlv-1", mkUpdate "failed" None None (Some "Webhook returned 404") (Some 120))] ∧
  response_code <$> deliveries (deliver (answering 404 "{}")).2 !! "dlv-1" = Some None.
Proof. vm_compute. repeat split. Qed.
End WebhookExamples.

(** ** The provider pool *)

Section ProviderPool.
Import Js Solana.
Variable RPC_PROVIDERS : Providers.
Variable send : string → string → JsValue → Z → Reply.

Lemma get_set providerName h h' hs :
  get providerName hs = Some h → get providerName (set providerName h' hs) = Some h'.
Proof.
  unfold get, set.
  destruct (String.eqb providerName "primary"); [done|].
  destruct (String.eqb providerName "fallback"); [done|].
  destruct (String.eqb providerName "triton"); done.
Qed.

Lemma elapse_no_timers dt p :
  timers p = [] → elapse dt p = mkPool (clock p + dt) (providerHealth p) [] (logged p).
Proof. unfold elapse. by intros ->. Qed.

End ProviderPool.

Section ProviderExamples.
Import Js Solana Scenario.

Local Abbreviation request := (rpcRequest endpoints firstAttemptLost "getSlot" (JArr [])).


End ProviderExamples.

(** * Further properties of the limiter *)

Section LimiterAnswers.
Import Redis RateLimit.

Lemma live_inserted t (d : gmap string ZSet) key e :
  live t (<[key := e]> d) key = if lapsed t e then None else Some e.
Proof. unfold live. by rewrite lookup_insert_eq. Qed.

Lemma live_deleted t (d : gmap string ZSet) key : live t (delete key d) key = None.
Proof. unfold live. by rewrite lookup_delete_eq. Qed.

Lemma live_not_lapsed t (d : gmap string ZSet) key e :
  live t d key = Some e → lapsed t e = false.
Proof.
  unfold live. destruct (d !! key) as [e'|]; [|done].
  destruct (lapsed t e') eqn:Hl; [done|]. by intros [= <-].
Qed.

Lemma lapsed_by_expiry t M M' x : lapsed t (mkZSet M x) = lapsed t (mkZSet M' x).
Proof. done. Qed.

(** X1. With the store reachable, a request that is turned away is not
    recorded: the answer leaves no slot, and the store is as the pruning
    of the entries older than the window left it. *)
Theorem denied_request_is_not_recorded (q : Call) (c : Conn) :
  up c = true →
  allowed (checkRateLimit q c).1 = false →
  remaining (checkRateLimit q c).1 = 0 ∧
  (checkRateLimit q c).2
  = (zremrangebyscore (now q) (key q) 0 (now q - windowSeconds q * 1000) c).2.
Proof.
  intros Hup. destruct c as [u d]. simpl in Hup. subst u.
  unfold checkRateLimit, zremrangebyscore, zcard, zadd, expire. simpl.
  destruct (live (now q) d (key q)) as [e|] eqn:Hl; simpl.
  - pose proof (live_not_lapsed _ _ _ _ Hl) as Hfresh.
    case_bool_decide as Hempty; simpl.
    + rewrite !live_deleted. simpl. case_bool_decide; simpl; [done|].
      rewrite !live_deleted. simpl. rewrite live_inserted. simpl. done.
    + rewrite !live_inserted.
      rewrite (lapsed_by_expiry _ _ (members e)). destruct e as [M x]. simpl in *.
      rewrite Hfresh. simpl. case_bool_decide; simpl; [done|].
      rewrite !live_inserted. unfold lapsed in *. simpl in *. rewrite Hfresh. simpl.
      rewrite live_inserted. unfold lapsed. simpl. rewrite Hfresh. done.
  - rewrite Hl. case_bool_decide; simpl; [done|].
    rewrite Hl. simpl. rewrite live_inserted. simpl. done.
Qed.

(** X2. With the store reachable, a request that is let through is
    recorded: its member is under the key with the request's instant
    as score, the key is set to lapse one window later, and the slots
    reported as remaining are fewer than the limit and never negative. *)
Theorem admitted_request_is_recorded (q : Call) (c : Conn) :
  up c = true →
  allowed (checkRateLimit q c).1 = true →
  0 ≤ remaining (checkRateLimit q c).1 < maxRequests q ∧
  ∃ M, db (checkRateLimit q c).2 !! key q
         = Some (mkZSet M (Some (now q + windowSeconds q * 1000)))
     ∧ M !! memberOf (now q) (rnd q) = Some (now q).
Proof.
  intros Hup. destruct c as [u d]. simpl in Hup. subst u.
  unfold checkRateLimit, zremrangebyscore, zcard, zadd, expire. simpl.
  destruct (live (now q) d (key q)) as [e|] eqn:Hl; simpl.
  - pose proof (live_not_lapsed _ _ _ _ Hl) as Hfresh.
    case_bool_decide as Hempty; simpl.
    + rewrite !live_deleted. simpl. case_bool_decide; simpl; [done|].
      rewrite !live_deleted. simpl. rewrite live_inserted. simpl.
      intros _. split; [lia|]. eexists. split; [apply lookup_insert_eq|].
      apply lookup_insert_eq.
    + rewrite !live_inserted.
      rewrite (lapsed_by_expiry _ _ (members e)). destruct e as [M x]. simpl in *.
      rewrite Hfresh. simpl. case_bool_decide; simpl; [done|].
      rewrite !live_inserted. unfold lapsed in *. simpl in *. rewrite Hfresh. simpl.
      rewrite live_inserted. unfold lapsed. simpl. rewrite Hfresh. simpl.
      intros _. split; [lia|]. eexists. split; [apply lookup_insert_eq|].
      apply lookup_insert_eq.
  - rewrite Hl. case_bool_decide; simpl; [done|].
    rewrite Hl. simpl. rewrite live_inserted. simpl.
    intros _. split; [lia|]. eexists. split; [apply lookup_insert_eq|].
    apply lookup_insert_eq.
Qed.

(** X3. Requests served one at a time keep a key within its limit: with
    the store reachable, the number of entries that ZCARD reports after
    a check is at most the limit, or at most what it reported before
    when that was more already. *)
Theorem serial_check_keeps_limit (q : Call) (c : Conn) :
  up c = true →
  ∃ before after,
    zcard (now q) (key q) c = (Ok before, c) ∧
    zcard (now q) (key q) (checkRateLimit q c).2
      = (Ok after, (checkRateLimit q c).2) ∧
    after ≤ Z.max (maxRequests q) before.
Proof.
  intros Hup. destruct c as [u d]. simpl in Hup. subst u.
  unfold checkRateLimit, zremrangebyscore, zcard, zadd, expire. simpl.
  destruct (live (now q) d (key q)) as [e|] eqn:Hl; simpl.
  - pose proof (live_not_lapsed _ _ _ _ Hl) as Hfresh.
    pose proof (map_filter_subseteq
                  (λ p, ¬ inRange 0 (now q - windowSeconds q * 1000) p) (members e)) as Hsub.
    apply map_subseteq_size in Hsub.
    exists (Z.of_nat (size (members e))). case_bool_decide as Hempty; simpl.
    + rewrite !live_deleted. simpl. case_bool_decide; simpl.
      * rewrite live_deleted. exists 0. split; [reflexivity|]. split; [reflexivity|]. lia.
      * rewrite !live_deleted. simpl. rewrite live_inserted. simpl.
        rewrite live_inserted.
        match goal with |- context [lapsed ?t (mkZSet ?M (Some ?x))] =>
          destruct (lapsed t (mkZSet M (Some x))) end; simpl; eexists; (split; [reflexivity|]);
          (split; [reflexivity|]); rewrite ?map_size_singleton; lia.
    + rewrite !live_inserted.
      rewrite (lapsed_by_expiry _ _ (members e)). destruct e as [M x]. simpl in *.
      rewrite Hfresh. simpl. case_bool_decide; simpl.
      * rewrite live_inserted. unfold lapsed in *. simpl in *. rewrite Hfresh.
        eexists. split; [reflexivity|]. split; [reflexivity|]. simpl. lia.
      * rewrite !live_inserted. unfold lapsed in *. simpl in *. rewrite Hfresh. simpl.
        rewrite live_inserted. unfold lapsed. simpl. rewrite Hfresh. simpl.
        rewrite live_inserted. simpl.
        match goal with |- context [<[?i := ?v]> (filter ?P ?m)] =>
          pose proof (map_size_insert i v (filter P m)) as Hins end.
        match goal with |- context [lapsed ?t (mkZSet ?M (Some ?x))] =>
          destruct (lapsed t (mkZSet M (Some x))) end; simpl;
          eexists; (split; [reflexivity|]); (split; [reflexivity|]); simpl; [lia|].
        destruct (_ !! memberOf (now q) (rnd q)); simpl in Hins; lia.
  - rewrite Hl. exists 0. case_bool_decide; simpl.
    + rewrite Hl. exists 0. split; [reflexivity|]. split; [reflexivity|]. lia.
    + rewrite Hl. simpl. rewrite live_inserted. simpl. rewrite live_inserted.
      match goal with |- context [lapsed ?t (mkZSet ?M (Some ?x))] =>
          destruct (lapsed t (mkZSet M (Some x))) end; simpl; eexists; (split; [reflexivity|]);
        (split; [reflexivity|]); rewrite ?map_size_singleton; lia.
Qed.

(** X4. With the store unreachable the limiter fails open, for as long
    as the outage lasts: every request of a sequence is let through
    with the whole limit reported as remaining, and nothing is written. *)
Theorem limiter_fails_open (qs : list Call) (c : Conn) :
  up c = false →
  serve qs c = (map (λ q, mkLimit true (maxRequests q) (windowSeconds q)) qs, c).
Proof.
  intros Hup. induction qs as [|q qs IH]; simpl; [done|].
  unfold checkRateLimit, zremrangebyscore. rewrite Hup. simpl. by rewrite IH.
Qed.
End LimiterAnswers.

(** * Further properties of the provider pool *)

Section ProviderSelection.
Import Js Solana.
Variable RPC_PROVIDERS : Providers.
Variable send : string → string → JsValue → Z → Reply.

Lemma reset_clock providerName p : clock (reset providerName p) = clock p.
Proof. unfold reset. by destruct (get providerName (providerHealth p)). Qed.

Lemma resets_clock due p :
  clock (foldl (λ acc (x : Z * string), reset x.2 acc) p due) = clock p.
Proof.
  revert p. induction due as [|x due IH]; intros p; simpl; [done|].
  by rewrite IH, reset_clock.
Qed.

Lemma elapse_clock dt p : clock (elapse dt p) = clock p + dt.
Proof. unfold elapse. by rewrite resets_clock. Qed.

Lemma markProviderFailed_clock providerName p :
  clock (markProviderFailed providerName p) = clock p.
Proof.
  unfold markProviderFailed. destruct (get providerName (providerHealth p)); [|done].
  simpl. by case_bool_decide.
Qed.

Lemma getHealthyProvider_clock p :
  clock (getHealthyProvider RPC_PROVIDERS p).2 = clock p.
Proof.
  unfold getHealthyProvider.
  repeat match goal with |- context [if ?b then _ else _] => destruct b end; done.
Qed.



Lemma attempt_failed n attempt lastError method params p :
  (∀ r, outcome (send (url (getHealthyProvider RPC_PROVIDERS p).1) method params attempt)
        ≠ Answered r) →
  ∃ e,
    attempts RPC_PROVIDERS send (S n) attempt lastError method params p
    = attempts RPC_PROVIDERS send n (attempt + 1) e method params
        (let pr := (getHealthyProvider RPC_PROVIDERS p).1 in
         let p2 := elapse (took (send (url pr) method params attempt))
                     (getHealthyProvider RPC_PROVIDERS p).2 in
         let p3 := markProviderFailed (name pr) p2 in
         let p4 := mkPool (clock p3) (providerHealth p3) (timers p3)
                     (logged p3 ++ ["RPC request failed (attempt "
                                    +:+ pretty (attempt + 1) +:+ "):"]) in
         if bool_decide (attempt < 3 - 1) then elapse (200 * (attempt + 1)) p4 else p4).
Proof.
  intros Hfail. simpl. destruct (getHealthyProvider RPC_PROVIDERS p) as [pr p1].
  simpl in *. destruct (outcome (send (url pr) method params attempt)) eqn:Ho; eauto.
  by destruct (Hfail result).
Qed.

(** X7. Failover: with no reset pending, a primary that has no failure
    counted and fails the first two attempts of a request is marked
    unhealthy at the second, and the third attempt goes to the fallback
    endpoint; when the fallback answers, the request succeeds through
    it. *)
Theorem third_attempt_fails_over (method : string) (params result : JsValue) (p : Pool) :
  timers p = [] →
  primary (providerHealth p) = mkHealth true 0 (lastCheck (primary (providerHealth p))) →
  healthy (fallback (providerHealth p)) = true →
  fallbackUrl RPC_PROVIDERS ≠ EmptyString →
  (∀ r, outcome (send (primaryUrl RPC_PROVIDERS) method params 0) ≠ Answered r) →
  (∀ r, outcome (send (primaryUrl RPC_PROVIDERS) method params 1) ≠ Answered r) →
  outcome (send (fallbackUrl RPC_PROVIDERS) method params 2) = Answered result →
  (rpcRequest RPC_PROVIDERS send method params p).1 = Ok (mkServed result "fallback").
Proof.
  destruct p as [c [[h1 f1 l1] [h2 f2 l2] tri] ts lg]. simpl.
  intros -> [= -> ->] -> Hurl Hfirst Hsecond Hthird.
  apply String.eqb_neq in Hurl.
  unfold rpcRequest.
  edestruct (attempt_failed 2 0 EmptyString method params) as [e0 ->]; [exact Hfirst|].
  unfold getHealthyProvider at 1 2.
  repeat (cbn -[attempts elapse]; rewrite ?elapse_no_timers by done).
  rewrite (bool_decide_eq_true_2 (0 < 3 - 1)) by lia.
  rewrite (bool_decide_eq_false_2 (2 ≤ 0 + 1)) by lia.
  repeat (cbn -[attempts elapse]; rewrite ?elapse_no_timers by done).
  edestruct (attempt_failed 1 (0 + 1) e0 method params) as [e1 ->]; [exact Hsecond|].
  unfold getHealthyProvider at 1 2.
  repeat (cbn -[attempts elapse]; rewrite ?elapse_no_timers by done).
  rewrite (bool_decide_eq_true_2 (0 + 1 < 3 - 1)) by lia.
  rewrite (bool_decide_eq_true_2 (2 ≤ 0 + 1 + 1)) by lia.
  unfold elapse. cbn -[attempts filter]. rewrite !filter_nil. cbn -[attempts filter].
  rewrite !filter_cons, !filter_nil.
  repeat case_decide; try (exfalso; cbn in *; lia).
  cbn. unfold getHealthyProvider. cbn.
  rewrite Hurl. cbn. change (0 + 1 + 1) with 2. by rewrite Hthird.
Qed.
End ProviderSelection.

(** * Further properties of the workflow engine *)

Section WorkflowFurther.
Import Js Workflow.
Context `{JsEngine}.
Variable axios : JsValue → Reply.

(** X8. The conditions of a workflow are a conjunction: a list passes
    exactly when each of its parts does, whatever the order the parts
    are put together in. *)
Theorem conditions_are_a_conjunction (first second : list Condition)
    (data : JsValue) (w : World) :
  (evaluateConditions (first ++ second) data w).1
  = (evaluateConditions first data w).1 && (evaluateConditions second data w).1.
Proof.
  revert w. induction first as [|c first IH]; intros w; simpl.
  { done. }
  destruct (label (operator c)); simpl;
    try (match goal with |- context [if ?b then _ else _] => destruct b end;
         [done | apply IH]).
  rewrite IH. f_equal. apply verdict_any_world.
Qed.

Lemma split_never_empty sep s : split sep s ≠ [].
Proof.
  destruct s as [|a s]; simpl; [done|].
  destruct (Ascii.eqb a sep); [done|]. by destruct (split sep s).
Qed.

Lemma split_joined sep p q :
  split sep (p +:+ String sep q) = split sep p ++ split sep q.
Proof.
  induction p as [|a p IH]; simpl.
  - by rewrite Ascii.eqb_refl.
  - destruct (Ascii.eqb a sep); [by rewrite IH|].
    rewrite IH. pose proof (split_never_empty sep p).
    by destruct (split sep p).
Qed.

(** X9. Paths compose: looking up [p.q] is looking up [q] in what [p]
    leads to. *)
Theorem nested_lookup_composes (obj : JsValue) (p q : string) :
  getNestedValue obj (p +:+ "." +:+ q) = getNestedValue (getNestedValue obj p) q.
Proof.
  unfold getNestedValue. change ("." +:+ q) with (String "." q).
  by rewrite split_joined, foldl_app.
Qed.

Lemma unknown_kind_throws a data w :
  kind a ∉ [WEBHOOK; HTTP_REQUEST; EMAIL; SOLANA_TRANSFER] →
  executeAction axios a data w
  = (Throw ("Unknown action type: " +:+ kind a), dispatch a w).
Proof.
  intros Hk.
  repeat (let X := fresh in apply not_elem_of_cons in Hk as [X Hk]).
  assert (E : ∀ s, kind a ≠ s → String.eqb (kind a) s = false)
    by (intros; by apply String.eqb_neq).
  unfold executeAction. by rewrite !E.
Qed.

(** X10. An action whose type is none of those the engine dispatches on
    fails the execution without any request being made: the run throws
    the unknown-type error, the execution is stored as failed with it,
    no later action is dispatched and no time passes. *)
Theorem unknown_action_type_fails
    (executionId : string) (wf : WorkflowDef) (data : JsValue) (w : World)
    (row : ExecutionRow) (a : Action) (rest : list Action) :
  (evaluateConditions (conditions wf) data w).1 = true →
  actions wf = a :: rest →
  kind a ∉ [WEBHOOK; HTTP_REQUEST; EMAIL; SOLANA_TRANSFER] →
  executions w !! executionId = Some row →
  (executeWorkflow axios executionId wf data w).1
    = Throw ("Unknown action type: " +:+ kind a) ∧
  dispatched (executeWorkflow axios executionId wf data w).2 = dispatched w ++ [a] ∧
  clock (executeWorkflow axios executionId wf data w).2 = clock w ∧
  status <$> executions (executeWorkflow axios executionId wf data w).2 !! executionId
    = Some "failed" ∧
  error <$> executions (executeWorkflow axios executionId wf data w).2 !! executionId
    = Some (Some ("Unknown action type: " +:+ kind a)).
Proof.
  intros Hpass Hacts Hkind Hrow.
  destruct (evaluateConditions_frame (conditions wf) data w) as (C1 & _ & C3 & C4).
  unfold executeWorkflow, tryBlock. rewrite Hacts.
  destruct (conditions wf) as [|c cs] eqn:Hcs.
  - simpl. rewrite (unknown_kind_throws a data w Hkind). simpl.
    by rewrite !lookup_alter_eq, Hrow.
  - destruct (evaluateConditions (c :: cs) data w) as [met wc].
    simpl in Hpass, C1, C3, C4. subst met. simpl.
    rewrite (unknown_kind_throws a data wc Hkind). simpl.
    by rewrite !lookup_alter_eq, C1, Hrow, C3, C4.
Qed.

(** What the loop leaves behind when every action succeeds. *)
Lemma runActions_ok todo data :
  ∀ l w l' w',
    runActions axios todo data l w = (Ok tt, l', w') →
    dispatched w' = dispatched w ++ todo ∧
    ∃ new,
      results_ l' = results_ l ++ new ∧
      Forall2 (λ a entry, ∃ r, entry = JObj [("action", JStr (kind a));
                                             ("success", JBool true);
                                             ("result", r)]) todo new.
Proof.
  induction todo as [|a todo IH]; intros l w l' w'; simpl.
  { intros [= <- <-]. split; [by rewrite app_nil_r|].
    exists []. split; [by rewrite app_nil_r | constructor]. }
  pose proof (executeAction_frame axios a data w) as (_ & _ & E3).
  destruct (executeAction axios a data w) as [[r|e] w1]; simpl in *; [|done].
  intros Hrun. apply IH in Hrun as (D & new & R & F). simpl in R.
  split; [by rewrite D, E3, <- app_assoc|].
  eexists (_ :: new). split; [by rewrite R, <- app_assoc|].
  constructor; eauto.
Qed.

(** X11. An execution that returns has run every action, in order, and
    stores one entry for each: the stored [result.actions] lists, action
    by action, its type with [success] set. *)
Theorem successful_execution_records_every_action
    (executionId : string) (wf : WorkflowDef) (data : JsValue) (w : World)
    (row : ExecutionRow) :
  (evaluateConditions (conditions wf) data w).1 = true →
  executions w !! executionId = Some row →
  (executeWorkflow axios executionId wf data w).1 = Ok tt →
  status <$> executions (executeWorkflow axios executionId wf data w).2 !! executionId
    = Some "success" ∧
  dispatched (executeWorkflow axios executionId wf data w).2
    = dispatched w ++ actions wf ∧
  ∃ entries,
    result <$> executions (executeWorkflow axios executionId wf data w).2 !! executionId
      = Some (JObj [("actions", JArr entries)]) ∧
    Forall2 (λ a entry, getProp entry "action" = JStr (kind a)
                        ∧ getProp entry "success" = JBool true)
      (actions wf) entries.
Proof.
  intros Hpass Hrow.
  destruct (evaluateConditions_frame (conditions wf) data w) as (C1 & _ & C3 & _).
  assert (Hloop : ∀ l wc, executions wc = executions w → dispatched wc = dispatched w →
    results_ l = [] →
    let final :=
      match
        match runActions axios (actions wf) data l wc with
        | (Ok _, l', w1) =>
            (Ok tt, push "Workflow completed successfully"
               (updateExecutionStats (id wf) true
                  (updateStatus executionId "success"
                     (Some (JObj [("actions", JArr (results_ l'))])) None
                     (logs_ l') w1)) l',
             updateExecutionStats (id wf) true
               (updateStatus executionId "success"
                  (Some (JObj [("actions", JArr (results_ l'))])) None
                  (logs_ l') w1))
        | (Throw e, l', w1) => (Throw e, l', w1)
        end
      with
      | (Ok _, _, w1) => (Ok tt, w1)
      | (Throw e, l', w1) =>
          (Throw e,
           updateExecutionStats (id wf) false
             (updateStatus executionId "failed" None (Some e)
                (logs_ (push ("Workflow failed: " +:+ e) w1 l')) w1))
      end in
    final.1 = Ok tt →
    status <$> executions final.2 !! executionId = Some "success" ∧
    dispatched final.2 = dispatched w ++ actions wf ∧
    ∃ entries,
      result <$> executions final.2 !! executionId
        = Some (JObj [("actions", JArr entries)]) ∧
      Forall2 (λ a entry, getProp entry "action" = JStr (kind a)
                          ∧ getProp entry "success" = JBool true)
        (actions wf) entries).
  { intros l wc Ex Dx Hl.
    pose proof (runActions_frame axios (actions wf) data l wc) as (R1 & _ & _).
    pose proof (runActions_ok (actions wf) data l wc) as Hok.
    destruct (runActions axios (actions wf) data l wc) as [[[[]|e] l'] w1];
      simpl in *; [|done].
    intros _. destruct (Hok l' w1 eq_refl) as (D & new & R & F).
    rewrite Hl in R. simpl in R. subst new.
    rewrite lookup_alter_eq, R1, Ex, Hrow. simpl.
    split; [done|]. split; [by rewrite D, Dx|].
    eexists. split; [reflexivity|].
    apply Forall2_fmap_r. eapply Forall2_impl; [exact F|].
    intros a entry [r ->]. simpl. by destruct (stored r). }
  unfold executeWorkflow, tryBlock.
  destruct (conditions wf) as [|c cs].
  - apply (Hloop _ w); done.
  - destruct (evaluateConditions (c :: cs) data w) as [met wc].
    simpl in Hpass, C1, C3. subst met. simpl.
    apply (Hloop _ wc); done.
Qed.
End WorkflowFurther.

(** * Further properties of the workflow queue *)

Section QueueRuns.
Import Js Workflow.
Context `{JsEngine}.
Variable network : nat → JsValue → Reply.
Variable maxRetries : Z.
Variable backoff : nat → Z.

Lemma work_made_grows more :
  ∀ made executionId wf data w,
    (made < (work network backoff more made executionId wf data w).2)%nat.
Proof.
  induction more as [|more IH]; intros made executionId wf data w; simpl;
    destruct (processor network made executionId wf data w) as [[[]|e] w1];
    simpl; try lia.
  specialize (IH (S made) executionId wf data (tick (backoff (S made)) w1)). lia.
Qed.

Lemma work_starts_over more :
  ∀ made executionId wf data w row a rest,
    (evaluateConditions (conditions wf) data w).1 = true →
    executions w !! executionId = Some row →
    actions wf = a :: rest →
    ∃ runs,
      dispatched (work network backoff more made executionId wf data w).1.2
        = dispatched w ++ concat runs ∧
      length runs = ((work network backoff more made executionId wf data w).2 - made)%nat ∧
      Forall (λ run, ∃ later, run = a :: later) runs.
Proof.
  induction more as [|more IH]; intros made executionId wf data w row a rest Hv Hrow Hacts;
    destruct (met_runs_actions (network made) executionId wf data w row Hv Hrow)
      as [Hstatus Hd];
    destruct (Hd a rest Hacts) as [later Hlater];
    simpl; unfold processor;
    destruct (executeWorkflow (network made) executionId wf data w) as [[[]|e] w1] eqn:Hrun;
    simpl in *.
  - exists [a :: later]. simpl. rewrite app_nil_r.
    split; [done|]. split; [lia|]. repeat constructor. eauto.
  - exists [a :: later]. simpl. rewrite app_nil_r.
    split; [done|]. split; [lia|]. repeat constructor. eauto.
  - exists [a :: later]. simpl. rewrite app_nil_r.
    split; [done|]. split; [lia|]. repeat constructor. eauto.
  - set (w2 := tick (backoff (S made)) (logger "Workflow execution failed:" w1)).
    assert (Hv2 : (evaluateConditions (conditions wf) data w2).1 = true)
      by (by rewrite (verdict_any_world _ _ w2 w)).
    assert (∃ row', executions w2 !! executionId = Some row') as [row' Hrow'].
    { destruct Hstatus as [Hs|Hs]; simpl;
        destruct (executions w1 !! executionId); eauto; done. }
    destruct (IH (S made) executionId wf data w2 row' a rest Hv2 Hrow' Hacts)
      as (runs & Hdis & Hlen & Hall).
    pose proof (work_made_grows more (S made) executionId wf data w2) as Hn.
    exists ((a :: later) :: runs). rewrite Hdis. simpl. rewrite Hlater.
    split; [by rewrite <- app_assoc|]. split; [lia|]. constructor; eauto.
Qed.

(** X14. A retry starts over. When the conditions pass, every run that
    the queue makes of an execution dispatches the actions again from
    the first, whether or not an earlier run already carried them out:
    what is dispatched over the job is one series for each run made,
    each beginning with the first action. *)
Theorem every_run_starts_over
    (executionId : string) (wf : WorkflowDef) (data : JsValue) (w : World)
    (row : ExecutionRow) (a : Action) (rest : list Action) :
  (evaluateConditions (conditions wf) data w).1 = true →
  executions w !! executionId = Some row →
  actions wf = a :: rest →
  ∃ runs,
    dispatched (runJob network maxRetries backoff executionId wf data w).1.2
      = dispatched w ++ concat runs ∧
    length runs = (runJob network maxRetries backoff executionId wf data w).2 ∧
    Forall (λ run, ∃ later, run = a :: later) runs.
Proof.
  intros Hv Hrow Hacts. unfold runJob.
  destruct (work_starts_over (Z.to_nat (maxRetries - 1)) 0 executionId wf data w
              row a rest Hv Hrow Hacts) as (runs & Hd & Hlen & Hall).
  exists runs. by rewrite Nat.sub_0_r in Hlen.
Qed.
End QueueRuns.

(** * Further properties of the proof service and of webhook delivery *)

Section ProverCalls.
Import Js Zk.
Context `{JsEngine}.
Variable fullProve : ProverCall → Result Proof.

(** X12. Whatever it is given, [generateBalanceProof] calls the prover at
    most once, and calls it only with amounts that [BigInt] accepts and
    a balance that reaches the threshold: a value that does not convert,
    or a balance below the threshold, never reaches the prover. *)
Theorem prover_called_only_when_threshold_met
    (balance threshold : JsValue) (calls : list ProverCall) :
  (generateBalanceProof fullProve balance threshold calls).2 = calls
  ∨ ∃ b t,
      BigInt balance = Ok b ∧ BigInt threshold = Ok t ∧ t ≤ b ∧
      (generateBalanceProof fullProve balance threshold calls).2
      = calls ++ [mkProverCall
                    (JObj [("balance", JStr (pretty b)); ("threshold", JStr (pretty t))])
                    "circuits/compiled/balance_threshold_js/balance_threshold.wasm"
                    "circuits/keys/balance_threshold_final.zkey"].
Proof.
  unfold generateBalanceProof.
  destruct (BigInt balance) as [b|e]; [|by left].
  destruct (BigInt threshold) as [t|e]; [|by left].
  case_bool_decide; [by left|]. right. exists b, t.
  repeat split; [lia|]. by destruct (fullProve _).
Qed.
End ProverCalls.

Section DeliveryOutcome.
Import Js Webhook.
Context `{JsEngine}.
Variable createHmacSignature : JsValue → string → string.
Variable timeoutMs : Z.
Variable receiver : JsValue → Reply.

(** X13. A delivery that returns was answered with a 2xx status: one
    update is issued, recording success with the status and the elapsed
    time, and the webhook's last-triggered instant moves to now. A
    delivery that throws leaves the last-triggered instant alone, and
    the last update it issues records the failure with the error thrown
    and the elapsed time. *)
Theorem delivery_returns_only_on_success
    (deliveryId : string) (hook : Hook) (event : string) (payload : JsValue)
    (attemptNo : Z) (w : World) :
  match (deliverWebhook createHmacSignature timeoutMs receiver
           deliveryId hook event payload attemptNo w).1 with
  | Ok d =>
      success d = true ∧ 200 ≤ statusCode d < 300 ∧
      (∃ body,
         issued (deliverWebhook createHmacSignature timeoutMs receiver
                   deliveryId hook event payload attemptNo w).2
         = issued w ++ [(deliveryId,
                         mkUpdate "success" (Some (statusCode d)) (Some body) None
                           (Some (duration_ d)))]) ∧
      last_triggered_at (deliverWebhook createHmacSignature timeoutMs receiver
                           deliveryId hook event payload attemptNo w).2
      = alter (λ _, clock (deliverWebhook createHmacSignature timeoutMs receiver
                             deliveryId hook event payload attemptNo w).2)
          (id hook) (last_triggered_at w)
  | Throw e =>
      last_triggered_at (deliverWebhook createHmacSignature timeoutMs receiver
                           deliveryId hook event payload attemptNo w).2
      = last_triggered_at w ∧
      last (issued (deliverWebhook createHmacSignature timeoutMs receiver
                      deliveryId hook event payload attemptNo w).2)
      = Some (deliveryId,
              mkUpdate "failed" None None (Some e)
                (Some (clock (deliverWebhook createHmacSignature timeoutMs receiver
                                deliveryId hook event payload attemptNo w).2
                       - clock w)))
  end.
Proof.
  unfold deliverWebhook, attemptDelivery, post.
  destruct (receipt (receiver _)) as [reason|st json]; simpl.
  { split; [done|]. by rewrite last_snoc. }
  case_bool_decide as Hlt; simpl.
  2:{ split; [done|]. by rewrite last_snoc. }
  destruct (bool_decide (200 ≤ st)) eqn:Hlo; simpl.
  2:{ split; [done|]. by rewrite last_snoc. }
  destruct (bool_decide (st < 300)) eqn:Hhi; simpl.
  2:{ split; [done|]. by rewrite last_snoc. }
  apply bool_decide_eq_true in Hlo, Hhi.
  split; [done|]. split; [lia|]. split; [eauto|]. done.
Qed.
End DeliveryOutcome.

(** * Further properties of the limiters *)

Section LimiterKeys.
Import Redis RateLimit Middleware.
Variable RATE_LIMIT_EXCEEDED : string.
Variable TOO_MANY_REQUESTS : Z.

Lemma zremrangebyscore_frame t k lo hi c other :
  other ≠ k → db (zremrangebyscore t k lo hi c).2 !! other = db c !! other.
Proof.
  intros Hne. unfold zremrangebyscore. destruct (up c); [|done].
  destruct (live t (db c) k); [|done].
  case_bool_decide; simpl; by rewrite ?lookup_delete_ne, ?lookup_insert_ne.
Qed.

Lemma zcard_frame t k c : (zcard t k c).2 = c.
Proof. unfold zcard. destruct (up c); [|done]. by destruct (live t (db c) k). Qed.

Lemma zadd_frame t k score member c other :
  other ≠ k → db (zadd t k score member c).2 !! other = db c !! other.
Proof.
  intros Hne. unfold zadd. destruct (up c); [|done].
  destruct (live t (db c) k); simpl; by rewrite lookup_insert_ne.
Qed.

Lemma expire_frame t k seconds c other :
  other ≠ k → db (expire t k seconds c).2 !! other = db c !! other.
Proof.
  intros Hne. unfold expire. destruct (up c); [|done].
  destruct (live t (db c) k); simpl; [by rewrite lookup_insert_ne | done].
Qed.

Lemma checkRateLimit_frame (q : Call) (c : Conn) (other : string) :
  other ≠ key q →
  db (checkRateLimit q c).2 !! other = db c !! other.
Proof.
  intros Hne. unfold checkRateLimit.
  pose proof (zremrangebyscore_frame (now q) (key q) 0
                (now q - windowSeconds q * 1000) c other Hne) as H1.
  destruct (zremrangebyscore _ _ _ _ c) as [[r1|e1] c1]; simpl in H1; [|done].
  pose proof (zcard_frame (now q) (key q) c1) as H2.
  destruct (zcard _ _ c1) as [[count|e2] c2]; simpl in H2; subst c2; [|done].
  case_bool_decide; [done|].
  pose proof (zadd_frame (now q) (key q) (now q) (memberOf (now q) (rnd q)) c1 other Hne)
    as H3.
  destruct (zadd _ _ _ _ c1) as [[r3|e3] c3]; simpl in H3; [|simpl; by rewrite H3].
  pose proof (expire_frame (now q) (key q) (windowSeconds q) c3 other Hne) as H4.
  destruct (expire _ _ _ c3) as [[r4|e4] c4]; simpl in *; by rewrite H4, H3.
Qed.

(** X19. A check reads and writes its own key only: whatever it finds
    the store in, and whether it lets the request through, turns it
    away or fails open, what is stored under any other key is as it
    was. *)
Theorem check_touches_only_its_key (q : Call) (c : Conn) (other : string) :
  other ≠ key q →
  db (checkRateLimit q c).2 !! other = db c !! other.
Proof. apply checkRateLimit_frame. Qed.

Lemma append_inj_r (p a b : string) : p +:+ a = p +:+ b → a = b.
Proof. induction p as [|x p IH]; simpl; [done|]. intros [= E]. by apply IH. Qed.

(** X20. On one route, callers are limited apart: a request by one
    caller (an API key, or an address when there is no key) changes
    nothing under the key that the limiter counts another caller's
    requests under. *)
Theorem callers_are_limited_apart
    (maxRequests windowSeconds : Z) (req other : Request)
    (now : Z) (rnd : string) (later : Z) (c : Conn) :
  caller req ≠ caller other →
  db (createRateLimiter RATE_LIMIT_EXCEEDED TOO_MANY_REQUESTS maxRequests windowSeconds
        req now rnd later c).2
     !! ("ratelimit:custom:" +:+ path req +:+ ":" +:+ caller other)
  = db c !! ("ratelimit:custom:" +:+ path req +:+ ":" +:+ caller other).
Proof.
  intros Hne. unfold createRateLimiter.
  pose proof (checkRateLimit_frame
                (mkCall now rnd ("ratelimit:custom:" +:+ path req +:+ ":" +:+ caller req)
                   maxRequests windowSeconds) c
                ("ratelimit:custom:" +:+ path req +:+ ":" +:+ caller other)) as Hframe.
  destruct (checkRateLimit _ c) as [result c1]. simpl in *.
  destruct (negb (allowed result)); simpl; apply Hframe;
    intros E; apply Hne; symmetry;
    by do 3 apply append_inj_r in E.
Qed.

(** X21. While the store is unreachable a route limiter refuses nobody:
    the request goes on, with the whole limit reported as remaining
    (never less than 0). *)
Theorem route_limiter_fails_open
    (maxRequests windowSeconds : Z) (req : Request)
    (now : Z) (rnd : string) (later : Z) (c : Conn) :
  up c = false →
  createRateLimiter RATE_LIMIT_EXCEEDED TOO_MANY_REQUESTS maxRequests windowSeconds req now rnd later c
  = (Next (mkHeaders maxRequests (Z.max 0 maxRequests)
             (later `div` 1000 + windowSeconds) None), c).
Proof.
  intros Hup. unfold createRateLimiter, checkRateLimit, zremrangebyscore.
  by rewrite Hup.
Qed.
End LimiterKeys.

(** * Further properties of webhook testing *)

Section WebhookTest.
Import Js Webhook.
Context `{JsEngine}.
Variable createHmacSignature : JsValue → string → string.
Variable timeoutMs : Z.
Variable receiver : JsValue → Reply.

(** X15. Testing a webhook records nothing: no delivery row, update,
    last-triggered instant or log line changes, only time passes. And
    for a receiver that answers every request alike, the test reports
    success exactly when a delivery to it would return; a status of 500
    or above, which a delivery surfaces as an error of the client, is
    reported by the test with its code and no error. *)
Theorem test_records_nothing_and_agrees
    (hook : Hook) (payload : JsValue) (w : World) (reply : Reply) :
  (∀ options, receiver options = reply) →
  deliveries (test createHmacSignature timeoutMs receiver hook payload w).2
    = deliveries w ∧
  last_triggered_at (test createHmacSignature timeoutMs receiver hook payload w).2
    = last_triggered_at w ∧
  issued (test createHmacSignature timeoutMs receiver hook payload w).2 = issued w ∧
  logged (test createHmacSignature timeoutMs receiver hook payload w).2 = logged w ∧
  clock (test createHmacSignature timeoutMs receiver hook payload w).2
    = clock w + took reply ∧
  duration' (test createHmacSignature timeoutMs receiver hook payload w).1 = took reply ∧
  (∀ deliveryId event body attemptNo w',
     success' (test createHmacSignature timeoutMs receiver hook payload w).1 = true
     ↔ ∃ d, (deliverWebhook createHmacSignature timeoutMs receiver
               deliveryId hook event body attemptNo w').1 = Ok d) ∧
  (∀ st json, receipt reply = Responded st json → 500 ≤ st →
     statusCode' (test createHmacSignature timeoutMs receiver hook payload w).1 = Some st ∧
     error' (test createHmacSignature timeoutMs receiver hook payload w).1 = None ∧
     ∀ deliveryId event body attemptNo w',
       (deliverWebhook createHmacSignature timeoutMs receiver
          deliveryId hook event body attemptNo w').1
       = Throw ("Request failed with status code " +:+ pretty st)).
Proof.
  intros Hsame.
  assert (Hdeliver : ∀ deliveryId event body attemptNo w',
    (deliverWebhook createHmacSignature timeoutMs receiver
       deliveryId hook event body attemptNo w').1
    = match receipt reply with
      | NoResponse reason => Throw reason
      | Responded st json =>
          if bool_decide (st < 500)
          then if bool_decide (200 ≤ st) && bool_decide (st < 300)
               then Ok (mkDelivered true st (took reply))
               else Throw ("Webhook returned " +:+ pretty st)
          else Throw ("Request failed with status code " +:+ pretty st)
      end).
  { intros. unfold deliverWebhook, attemptDelivery, post. rewrite Hsame.
    destruct (receipt reply) as [reason|st json]; simpl; [done|].
    destruct (bool_decide (st < 500)); simpl; [|done].
    destruct (bool_decide (200 ≤ st) && bool_decide (st < 300)); simpl; [|done].
    do 2 f_equal. lia. }
  unfold test. rewrite Hsame.
  destruct (receipt reply) as [reason|st json] eqn:Hr; simpl.
  - split; [done|]. split; [done|]. split; [done|]. split; [done|].
    split; [done|]. split; [lia|]. split.
    + intros deliveryId event body attemptNo w'. rewrite Hdeliver. split; [done|].
      by intros [d Hd].
    + intros st json Hst. done.
  - split; [done|]. split; [done|]. split; [done|]. split; [done|].
    split; [done|]. split; [lia|]. split.
    + intros deliveryId event body attemptNo w'. rewrite Hdeliver. split.
      * intros Hok. rewrite Hok.
        apply andb_true_iff in Hok as [_ Hhi]. apply bool_decide_eq_true in Hhi.
        rewrite (bool_decide_eq_true_2 (st < 500)) by lia. eauto.
      * intros [d Hd]. destruct (bool_decide (st < 500)); [|done].
        by destruct (bool_decide (200 ≤ st) && bool_decide (st < 300)).
    + intros st' json' [= <- _] Hbig. split; [done|]. split; [done|].
      intros deliveryId event body attemptNo w'. rewrite Hdeliver.
      by rewrite (bool_decide_eq_false_2 (st < 500)) by lia.
Qed.
End WebhookTest.

(** * Further properties of the direct proof calls *)

Section DirectProofs.
Import Js Zk.
Context `{JsEngine}.
Variable fullProve : ProverCall → Result Proof.

Lemma bigEndian_bound bytes :
  Forall (λ b, 0 ≤ b < 256) bytes →
  ∀ acc, 0 ≤ acc →
    0 ≤ foldl (λ acc b, acc * 256 + b) acc bytes
      < (acc + 1) * 256 ^ Z.of_nat (length bytes).
Proof.
  induction 1 as [|b bytes Hb _ IH]; intros acc Hacc; simpl.
  { lia. }
  specialize (IH (acc * 256 + b) ltac:(lia)).
  rewrite Nat2Z.inj_succ, Z.pow_succ_r by lia.
  split; [lia|]. eapply Z.lt_le_trans; [apply IH|].
  assert (0 < 256 ^ Z.of_nat (length bytes)) by (apply Z.pow_pos_nonneg; lia).
  nia.
Qed.

Lemma addressBytes_are_bytes tokenAddress :
  Forall (λ b, 0 ≤ b < 256) (addressBytes tokenAddress) ∧
  (length (addressBytes tokenAddress) ≤ 31)%nat.
Proof.
  unfold addressBytes. split.
  - apply Forall_take, Forall_forall. intros b Hb.
    apply list_elem_of_fmap in Hb as (a & -> & _).
    pose proof (Ascii.N_ascii_bounded a). lia.
  - rewrite length_take. lia.
Qed.

(** X16. Whatever it is given, [generateHolderProof] calls the prover
    at most once, and only for a balance that [BigInt] converts to a
    positive number and a token address of at least one byte; the
    number it passes for the address is that of its first 31 bytes and
    is below 2^248. *)
Theorem holder_proof_guard
    (balance : JsValue) (tokenAddress : string) (tokenHash : JsValue)
    (calls : list ProverCall) :
  (generateHolderProof fullProve balance tokenAddress tokenHash calls).2 = calls
  ∨ ∃ b n,
      BigInt balance = Ok b ∧ 0 < b ∧
      tokenAddress ≠ EmptyString ∧
      n = bigEndian (addressBytes tokenAddress) ∧ 0 ≤ n < 2 ^ 248 ∧
      (generateHolderProof fullProve balance tokenAddress tokenHash calls).2
      = calls ++ [mkProverCall
                    (JObj [("balance", JStr (pretty b));
                           ("tokenAddress", JStr (pretty n));
                           ("tokenHash", tokenHash)])
                    "circuits/compiled/token_holder_js/token_holder.wasm"
                    "circuits/keys/token_holder_final.zkey"].
Proof.
  unfold generateHolderProof, tokenNumber.
  destruct (BigInt balance) as [b|e]; [|by left].
  case_bool_decide; [by left|].
  destruct (addressBytes tokenAddress) as [|b0 bytes] eqn:Hbytes; [by left|].
  right. exists b, (bigEndian (b0 :: bytes)).
  split; [done|]. split; [lia|]. split.
  { intros ->. done. }
  split; [done|]. split.
  - destruct (addressBytes_are_bytes tokenAddress) as [Hall Hlen].
    rewrite Hbytes in Hall, Hlen.
    pose proof (bigEndian_bound _ Hall 0 ltac:(lia)) as Hb.
    unfold bigEndian. split; [lia|].
    eapply Z.lt_le_trans; [apply Hb|].
    change (2 ^ 248) with (256 ^ 31). rewrite Z.mul_1_l.
    apply Z.pow_le_mono_r; lia.
  - by destruct (fullProve _).
Qed.

Lemma bytes_of_append p s :
  list_ascii_of_string (p +:+ s) = list_ascii_of_string p ++ list_ascii_of_string s.
Proof. induction p as [|a p IH]; simpl; [done|]. by rewrite IH. Qed.

Lemma bytes_length p : length (list_ascii_of_string p) = String.length p.
Proof. induction p as [|a p IH]; simpl; [done|]. by rewrite IH. Qed.

(** X17. The holder proof reads 31 bytes of the token address and no
    more: two addresses that begin with the same 31 bytes are one and
    the same to it, in what it returns and in what it hands the
    prover. *)
Theorem holder_proof_reads_31_bytes
    (balance : JsValue) (head tail tail' : string) (tokenHash : JsValue)
    (calls : list ProverCall) :
  String.length head = 31%nat →
  generateHolderProof fullProve balance (head +:+ tail) tokenHash calls
  = generateHolderProof fullProve balance (head +:+ tail') tokenHash calls.
Proof.
  intros Hlen.
  assert (Hsame : ∀ t, addressBytes (head +:+ t) = addressBytes head).
  { intros t. unfold addressBytes.
    rewrite bytes_of_append, map_app, take_app_le; [done|].
    rewrite length_map, bytes_length. lia. }
  unfold generateHolderProof, tokenNumber. by rewrite !Hsame.
Qed.

(** X18. Whatever it is given, [generateThresholdProof] calls the prover
    at most once, and only with amounts that [BigInt] accepts and a
    value that reaches the threshold. *)
Theorem threshold_prover_called_only_when_met
    (value threshold : JsValue) (calls : list ProverCall) :
  (generateThresholdProof fullProve value threshold calls).2 = calls
  ∨ ∃ v t,
      BigInt value = Ok v ∧ BigInt threshold = Ok t ∧ t ≤ v ∧
      (generateThresholdProof fullProve value threshold calls).2
      = calls ++ [mkProverCall
                    (JObj [("value", JStr (pretty v)); ("threshold", JStr (pretty t))])
                    "circuits/compiled/threshold_proof_js/threshold_proof.wasm"
                    "circuits/keys/threshold_proof_final.zkey"].
Proof.
  unfold generateThresholdProof.
  destruct (BigInt value) as [v|e]; [|by left].
  destruct (BigInt threshold) as [t|e]; [|by left].
  case_bool_decide; [by left|]. right. exists v, t.
  repeat split; [lia|]. by destruct (fullProve _).
Qed.
End DirectProofs.

(** * Further properties of the cache and of the list queues *)

Section CacheRoundTrip.
Import Js Cache.
Context `{JsEngine}.

(** X22. A value is served from the cache for its time to live. After a
    lookup that missed and a callback that returned a value whose JSON
    text is not empty and not null, every [getOrSet] on the key before
    the time to live has run out answers with what the JSON text reads
    back as, marked as cached, leaves the store as it is and does not
    run its callback. *)
Theorem cached_value_is_served
    {W W' : Type} (now later : Z) (key : string) (ttlSeconds : Z)
    (callback : W → Result JsValue * W) (s : Store) (w : W) (value : JsValue) :
  up s = true → 0 < ttlSeconds →
  (get now key s).1 = JNull →
  (callback w).1 = Ok value →
  stored value ≠ JNull → stored value ≠ JUndefined →
  (getOrSet now later key ttlSeconds callback s w).1.1 = Ok (mkFetched value false) ∧
  ∀ (now' later' ttl' : Z) (callback' : W' → Result JsValue * W') (w' : W'),
    now' < later + ttlSeconds * 1000 →
    getOrSet now' later' key ttl' callback'
      (getOrSet now later key ttlSeconds callback s w).1.2 w'
    = (Ok (mkFetched (stored value) true),
       (getOrSet now later key ttlSeconds callback s w).1.2, w').
Proof.
  intros Hup Httl Hmiss Hcall Hnull Hundef.
  unfold getOrSet at 1 3 4.
  destruct (get now key s) as [hit s1] eqn:Hget. simpl in Hmiss. subst hit. simpl.
  destruct (callback w) as [[v|e] w1]; simpl in Hcall; [|done].
  injection Hcall as ->.
  assert (Hs1 : s1 = s).
  { unfold get in Hget. rewrite Hup in Hget.
    destruct (entries s !! key) as [e|]; [|by injection Hget].
    by destruct (bool_decide (expireAt e ≤ now)); injection Hget. }
  subst s1. unfold set. rewrite Hup, (bool_decide_eq_true_2 (0 < ttlSeconds)) by done.
  simpl. split; [done|].
  intros now' later' ttl' callback' w' Hfresh.
  unfold getOrSet, get. simpl. rewrite lookup_insert_eq. simpl.
  rewrite bool_decide_eq_false_2 by lia.
  unfold parse. destruct (stored value); simpl; done.
Qed.

(** X23. The cache never serves a value past its time to live, and it
    never serves null: when the time to live has run out, or when the
    callback returned a value whose JSON text is null or empty, the next
    [getOrSet] on the key runs its callback and answers with what that
    returns. *)
Theorem lapsed_or_null_is_fetched_again
    {W W' : Type} (now later : Z) (key : string) (ttlSeconds : Z)
    (callback : W → Result JsValue * W) (s : Store) (w : W) (value : JsValue)
    (now' later' ttl' : Z) (callback' : W' → Result JsValue * W') (w' : W') :
  now ≤ now' →
  (get now key s).1 = JNull →
  (callback w).1 = Ok value →
  later + ttlSeconds * 1000 ≤ now' ∨ stored value = JNull ∨ stored value = JUndefined →
  (getOrSet now' later' key ttl' callback'
     (getOrSet now later key ttlSeconds callback s w).1.2 w').2
  = (callback' w').2 ∧
  (getOrSet now' later' key ttl' callback'
     (getOrSet now later key ttlSeconds callback s w).1.2 w').1.1
  = match (callback' w').1 with
    | Ok value' => Ok (mkFetched value' false)
    | Throw e => Throw e
    end.
Proof.
  intros Horder Hmiss Hcall Hwhy.
  unfold getOrSet at 2 4.
  destruct (get now key s) as [hit s1] eqn:Hget. simpl in Hmiss. subst hit. simpl.
  destruct (callback w) as [[v|e] w1]; simpl in Hcall; [|done].
  injection Hcall as ->.
  assert (Hagain : (get now' key (set later key value ttlSeconds s1).2).1 = JNull).
  { unfold get in Hget. destruct (up s) eqn:Hup.
    - assert (s1 = s) as ->.
      { destruct (entries s !! key) as [e|]; [|by injection Hget].
        by destruct (bool_decide (expireAt e ≤ now)); injection Hget. }
      unfold set, get. rewrite Hup. simpl. case_bool_decide as Httl; simpl.
      + rewrite lookup_insert_eq. simpl.
        case_bool_decide; [done|].
        destruct Hwhy as [?|[->| ->]]; [lia|done|done].
      + rewrite Hup. destruct (entries s !! key) as [e|] eqn:He; [|done].
        destruct (bool_decide (expireAt e ≤ now)) eqn:Hold.
        * apply bool_decide_eq_true in Hold.
          rewrite bool_decide_eq_true_2 by lia. done.
        * injection Hget as Hparse. rewrite Hparse.
          by destruct (bool_decide (expireAt e ≤ now')).
    - injection Hget as <-. unfold set, get. simpl. rewrite Hup. simpl.
      by rewrite Hup. }
  destruct (set later key value ttlSeconds s1) as [okay s2]. simpl in *.
  unfold getOrSet. destruct (get now' key s2) as [hit s3]. simpl in Hagain.
  subst hit. simpl. by destruct (callback' w') as [[v'|e'] w2]; simpl;
    try destruct (set later' key v' ttl' s3).
Qed.

(** X24. A cache that cannot be reached costs a request nothing but the
    saving: [getOrSet] runs the callback and answers with what it
    returns (or throws what it throws); no entry and no list changes. *)
Theorem unreachable_cache_is_passed_by
    {W : Type} (now later : Z) (key : string) (ttlSeconds : Z)
    (callback : W → Result JsValue * W) (s : Store) (w : W) :
  up s = false →
  (getOrSet now later key ttlSeconds callback s w).1.1
  = match (callback w).1 with
    | Ok value => Ok (mkFetched value false)
    | Throw e => Throw e
    end ∧
  (getOrSet now later key ttlSeconds callback s w).2 = (callback w).2 ∧
  entries (getOrSet now later key ttlSeconds callback s w).1.2 = entries s ∧
  lists (getOrSet now later key ttlSeconds callback s w).1.2 = lists s.
Proof.
  intros Hup. unfold getOrSet, get, set. rewrite Hup. simpl.
  destruct (callback w) as [[value|e] w1]; simpl; rewrite ?Hup; simpl; repeat split.
Qed.
End CacheRoundTrip.

Section QueueOrder.
Import Js Cache.
Context `{JsEngine}.

Lemma pushAll_up queueName values s : up (pushAll queueName values s) = up s.
Proof.
  revert s. induction values as [|v values IH]; intros s; simpl.
  - reflexivity.
  - rewrite IH. unfold push. destruct (up s) eqn:Hup; simpl; [reflexivity | done].
Qed.

Lemma pushAll_items queueName values s :
  up s = true →
  default [] (lists (pushAll queueName values s) !! queueName)
  = List.rev (map stored values) ++ default [] (lists s !! queueName).
Proof.
  revert s. induction values as [|v values IH]; intros s Hup; simpl; [done|].
  rewrite IH by (unfold push; by rewrite Hup).
  unfold push. rewrite Hup. simpl. rewrite lookup_insert_eq. simpl.
  by rewrite <- app_assoc.
Qed.

Lemma popMany_items queueName items :
  ∀ s, up s = true →
    default [] (lists s !! queueName) = List.rev items →
    (popMany (List.length items) queueName s).1 = map parse items ∧
    default [] (lists (popMany (List.length items) queueName s).2 !! queueName) = [] ∧
    up (popMany (List.length items) queueName s).2 = true.
Proof.
  induction items as [|item items IH]; intros s Hup Hitems; simpl.
  { repeat split; done. }
  unfold pop. rewrite Hup, Hitems. simpl. rewrite rev_app_distr, rev_involutive. simpl.
  match goal with |- context [popMany _ _ ?s1] =>
    destruct (IH s1) as (I1 & I2 & I3); [done| |] end.
  { simpl. destruct items as [|i items]; simpl.
    - by rewrite lookup_delete_eq.
    - by rewrite lookup_insert_eq. }
  destruct (popMany _ _ _) as [popped s2]. simpl in *. by rewrite I1.
Qed.

(** X25. A queue is first in, first out. Items pushed onto an empty
    queue come back from as many pops in the order they were pushed in,
    each as its JSON text reads back (an item without JSON text comes
    back as null), and the queue is empty again: one more pop answers
    null. *)
Theorem queue_is_first_in_first_out
    (queueName : string) (values : list JsValue) (s : Store) :
  up s = true →
  lists s !! queueName = None →
  (popMany (List.length values) queueName (pushAll queueName values s)).1
    = map (λ v, parse (stored v)) values ∧
  (pop queueName
     (popMany (List.length values) queueName (pushAll queueName values s)).2).1
    = Ok JNull.
Proof.
  intros Hup Hnone.
  pose proof (pushAll_items queueName values s Hup) as Hpushed.
  rewrite Hnone, app_nil_r in Hpushed. simpl in Hpushed.
  destruct (popMany_items queueName (map stored values)
              (pushAll queueName values s)) as (P1 & P2 & P3).
  { by rewrite pushAll_up. }
  { done. }
  rewrite length_map in P1, P2, P3. rewrite P1, map_map. split; [done|].
  unfold pop. by rewrite P3, P2.
Qed.

Lemma lrange_tail items count :
  0 < count →
  lrange items (- count) (-1)
  = drop (List.length items - Z.to_nat count) items.
Proof.
  intros Hc. unfold lrange.
  rewrite (bool_decide_eq_true_2 (- count < 0)) by lia.
  rewrite (bool_decide_eq_true_2 (-1 < 0)) by lia.
  case_bool_decide as Hempty.
  - destruct items as [|i items]; [by rewrite drop_nil|].
    simpl in Hempty. lia.
  - rewrite take_ge.
    + f_equal. lia.
    + rewrite length_drop. lia.
Qed.

(** X26. Peeking shows what is next: on a queue that holds items, all
    with a JSON text, [peek] with a positive count (10 when none is
    given) leaves the queue as it is and lists the items that the next
    pops will take, the next one last, as many as the count allows. *)
Theorem peek_ends_with_next_pop
    (queueName : string) (count : option Z) (s : Store) (items : list JsValue) :
  up s = true →
  lists s !! queueName = Some items →
  items ≠ [] →
  Forall (λ item, emptyText item = false) items →
  0 < default 10 count →
  peek queueName count s
    = (Ok (drop (List.length items - Z.to_nat (default 10 count)) items), s) ∧
  ∃ next,
    (pop queueName s).1 = Ok next ∧
    last (drop (List.length items - Z.to_nat (default 10 count)) items) = Some next.
Proof.
  intros Hup Hitems Hne Hall Hcount.
  unfold peek, pop. rewrite Hup, Hitems. simpl.
  rewrite lrange_tail by done.
  assert (Hnone : existsb emptyText
            (drop (List.length items - Z.to_nat (default 10 count)) items) = false).
  { apply Bool.not_true_is_false. intros Hex.
    apply existsb_exists in Hex as (item & Hin & Hempty).
    apply list_elem_of_In in Hin. apply (subseteq_drop _ items) in Hin.
    rewrite Forall_forall in Hall. by rewrite (Hall item Hin) in Hempty. }
  rewrite Hnone. split; [done|].
  destruct (List.rev items) as [|final others] eqn:Hrev.
  { apply (f_equal (@List.rev _)) in Hrev. rewrite rev_involutive in Hrev. done. }
  exists final. simpl.
  assert (Hitems' : items = List.rev others ++ [final]).
  { apply (f_equal (@List.rev _)) in Hrev. by rewrite rev_involutive in Hrev. }
  split.
  - unfold parse. rewrite Forall_forall in Hall.
    rewrite (Hall final); [done|]. rewrite Hitems'. set_solver.
  - rewrite Hitems'. rewrite drop_app_le.
    + by rewrite last_snoc.
    + rewrite length_app in *. simpl. lia.
Qed.
End QueueOrder.


(** * The further properties at work *)

Section FurtherExamples.
Import Redis RateLimit Js Scenario.

Lemma denied_request_is_not_recorded_witness :
  remaining (checkRateLimit secondRequest noSlotLeft).1 = 0 ∧
  (checkRateLimit secondRequest noSlotLeft).2
  = (zremrangebyscore 10000 limiterKey 0 (10000 - 60 * 1000) noSlotLeft).2.
Proof.
  apply (denied_request_is_not_recorded secondRequest noSlotLeft); reflexivity.
Defined.

Lemma admitted_request_is_recorded_witness :
  0 ≤ remaining (checkRateLimit firstRequest oneSlotLeft).1 < 5 ∧
  ∃ M, db (checkRateLimit firstRequest oneSlotLeft).2 !! limiterKey
         = Some (mkZSet M (Some (10000 + 60 * 1000)))
     ∧ M !! memberOf 10000 "0.15" = Some 10000.
Proof.
  apply (admitted_request_is_recorded firstRequest oneSlotLeft); reflexivity.
Defined.

Lemma serial_check_keeps_limit_witness :
  ∃ before after,
    zcard 10000 limiterKey oneSlotLeft = (Ok before, oneSlotLeft) ∧
    zcard 10000 limiterKey (checkRateLimit firstRequest oneSlotLeft).2
      = (Ok after, (checkRateLimit firstRequest oneSlotLeft).2) ∧
    after ≤ Z.max 5 before.
Proof.
  apply (serial_check_keeps_limit firstRequest oneSlotLeft). reflexivity.
Defined.

Lemma limiter_fails_open_witness :
  serve [firstRequest; secondRequest] offline
  = (map (λ q, mkLimit true (maxRequests q) (windowSeconds q))
       [firstRequest; secondRequest], offline).
Proof.
  apply (limiter_fails_open [firstRequest; secondRequest] offline). reflexivity.
Defined.


Lemma third_attempt_fails_over_witness :
  (Solana.rpcRequest endpoints primaryOut "getSlot" (JArr []) fresh).1
    = Ok (Solana.mkServed (JNum 312) "fallback").
Proof.
  apply (third_attempt_fails_over endpoints primaryOut "getSlot" (JArr []) (JNum 312)
           fresh); try reflexivity; try discriminate; intros r; vm_compute; discriminate.
Defined.

Lemma unknown_action_type_fails_witness :
  (@Workflow.executeWorkflow engine accepting "exec-1" unsupported (JObj []) store).1
    = Throw "Unknown action type: solana_instruction" ∧
  Workflow.dispatched
    (@Workflow.executeWorkflow engine accepting "exec-1" unsupported (JObj []) store).2
    = [] ++ [instruct] ∧
  Workflow.clock
    (@Workflow.executeWorkflow engine accepting "exec-1" unsupported (JObj []) store).2
    = 1000 ∧
  Workflow.status
    <$> Workflow.executions
          (@Workflow.executeWorkflow engine accepting "exec-1" unsupported (JObj []) store).2
        !! "exec-1" = Some "failed" ∧
  Workflow.error
    <$> Workflow.executions
          (@Workflow.executeWorkflow engine accepting "exec-1" unsupported (JObj []) store).2
        !! "exec-1" = Some (Some "Unknown action type: solana_instruction").
Proof.
  apply (@unknown_action_type_fails engine accepting "exec-1" unsupported (JObj []) store
           running instruct [mail]); try reflexivity.
  repeat (apply not_elem_of_cons; split; [discriminate|]). apply not_elem_of_nil.
Defined.

Lemma successful_execution_records_every_action_witness :
  Workflow.status
    <$> Workflow.executions
          (@Workflow.executeWorkflow engine accepting "exec-1" threeSteps (JObj []) store).2
        !! "exec-1" = Some "success" ∧
  Workflow.dispatched
    (@Workflow.executeWorkflow engine accepting "exec-1" threeSteps (JObj []) store).2
    = [] ++ [notify; mail; transfer] ∧
  ∃ entries,
    Workflow.result
      <$> Workflow.executions
            (@Workflow.executeWorkflow engine accepting "exec-1" threeSteps (JObj []) store).2
          !! "exec-1" = Some (JObj [("actions", JArr entries)]) ∧
    Forall2 (λ a entry, @getProp engine entry "action" = JStr (Workflow.kind a)
                        ∧ @getProp engine entry "success" = JBool true)
      [notify; mail; transfer] entries.
Proof.
  apply (@successful_execution_records_every_action engine accepting "exec-1" threeSteps
           (JObj []) store running); reflexivity.
Defined.

Lemma every_run_starts_over_witness :
  ∃ runs,
    Workflow.dispatched
      (@Workflow.runJob engine down 3 exponential "exec-1" threeSteps (JObj []) store).1.2
      = [] ++ concat runs ∧
    length runs
      = (@Workflow.runJob engine down 3 exponential "exec-1" threeSteps (JObj []) store).2 ∧
    Forall (λ run, ∃ later, run = notify :: later) runs.
Proof.
  apply (@every_run_starts_over engine down 3 exponential "exec-1" threeSteps (JObj [])
           store running notify [mail; transfer]); reflexivity.
Defined.

(** Three actions, the second of a type the engine does not know: the
    first is carried out at every run of the job. *)
Example retries_repeat_completed_actions :
  Workflow.dispatched
    (@Workflow.runJob engine down 3 exponential "exec-1"
       (Workflow.mkWorkflow "wf-1" [] [mail; instruct; transfer]) (JObj []) store).1.2
  = [mail; instruct; mail; instruct; mail; instruct].
Proof. reflexivity. Qed.

Lemma check_touches_only_its_key_witness :
  db (checkRateLimit firstRequest oneSlotLeft).2 !! "ratelimit:key:43"
  = db oneSlotLeft !! "ratelimit:key:43".
Proof.
  apply (check_touches_only_its_key firstRequest oneSlotLeft "ratelimit:key:43").
  discriminate.
Defined.

Lemma callers_are_limited_apart_witness :
  db (Middleware.createRateLimiter "RATE_LIMITED" 429 10 60 byKey 10000 "0.15" 10002 oneSlotLeft).2
     !! ("ratelimit:custom:" +:+ Middleware.path byKey +:+ ":"
         +:+ Middleware.caller byAddress)
  = db oneSlotLeft
     !! ("ratelimit:custom:" +:+ Middleware.path byKey +:+ ":"
         +:+ Middleware.caller byAddress).
Proof.
  apply (callers_are_limited_apart "RATE_LIMITED" 429 10 60 byKey byAddress 10000 "0.15" 10002
           oneSlotLeft).
  discriminate.
Defined.

Lemma route_limiter_fails_open_witness :
  Middleware.createRateLimiter "RATE_LIMITED" 429 10 60 byKey 10000 "0.15" 10002 offline
  = (Middleware.Next (Middleware.mkHeaders 10 (Z.max 0 10) (10002 `div` 1000 + 60) None),
     offline).
Proof.
  apply (route_limiter_fails_open "RATE_LIMITED" 429 10 60 byKey 10000 "0.15" 10002 offline).
  reflexivity.
Defined.

Lemma test_records_nothing_and_agrees_witness :
  Webhook.deliveries
    (@Webhook.test engine signer 10000 (answering 503 "[503]") subscriber (JObj [])
       outbox).2
  = Webhook.deliveries outbox.
Proof.
  apply (@test_records_nothing_and_agrees engine signer 10000 (answering 503 "[503]")
           subscriber (JObj []) outbox
           (Webhook.mkReply 120 (Webhook.Responded 503 "[503]"))).
  intros options. reflexivity.
Defined.

Lemma holder_proof_reads_31_bytes_witness :
  @Zk.generateHolderProof engine prover (JNum 5) (mintHead +:+ "1111111111112")
    (JStr "h") []
  = @Zk.generateHolderProof engine prover (JNum 5) (mintHead +:+ "1111111111113")
      (JStr "h") [].
Proof.
  apply (@holder_proof_reads_31_bytes engine prover (JNum 5) mintHead
           "1111111111112" "1111111111113" (JStr "h") []).
  reflexivity.
Defined.

Lemma cached_value_is_served_witness :
  (@Cache.getOrSet engine nat 1000 1040 "solana:slot" 30 fetchSlot emptyCache 0%nat).1.1
  = Ok (Cache.mkFetched (JNum 312) false).
Proof.
  apply (@cached_value_is_served engine nat nat 1000 1040 "solana:slot" 30 fetchSlot
           emptyCache 0%nat (JNum 312)); try reflexivity; discriminate.
Defined.

(** The second lookup, twenty seconds on, is served from the cache and
    runs no callback; the third, past the thirty seconds, fetches
    again. *)
Example slot_is_cached_for_thirty_seconds :
  let first := @Cache.getOrSet engine nat 1000 1040 "solana:slot" 30 fetchSlot
                 emptyCache 0%nat in
  let second := @Cache.getOrSet engine nat 21000 21040 "solana:slot" 30 fetchSlot
                  first.1.2 first.2 in
  let third := @Cache.getOrSet engine nat 31040 31080 "solana:slot" 30 fetchSlot
                 second.1.2 second.2 in
  (first.1.1, first.2) = (Ok (Cache.mkFetched (JNum 312) false), 1%nat) ∧
  (second.1.1, second.2) = (Ok (Cache.mkFetched (JNum 312) true), 1%nat) ∧
  (third.1.1, third.2) = (Ok (Cache.mkFetched (JNum 312) false), 2%nat).
Proof. repeat split; reflexivity. Qed.

Lemma lapsed_or_null_is_fetched_again_witness :
  (@Cache.getOrSet engine nat 2000 2040 "solana:account" 30 fetchNothing
     (@Cache.getOrSet engine nat 1000 1040 "solana:account" 30 fetchNothing
        emptyCache 0%nat).1.2 1%nat).2
  = (fetchNothing 1%nat).2.
Proof.
  apply (@lapsed_or_null_is_fetched_again engine nat nat 1000 1040 "solana:account" 30
           fetchNothing emptyCache 0%nat JNull 2000 2040 30 fetchNothing 1%nat);
    try reflexivity; [lia | right; left; reflexivity].
Defined.

Lemma unreachable_cache_is_passed_by_witness :
  (@Cache.getOrSet engine nat 1000 1040 "solana:slot" 30 fetchSlot noCache 0%nat).1.1
  = match (fetchSlot 0%nat).1 with
    | Ok value => Ok (Cache.mkFetched value false)
    | Throw e => Throw e
    end.
Proof.
  apply (@unreachable_cache_is_passed_by engine nat 1000 1040 "solana:slot" 30 fetchSlot
           noCache 0%nat).
  reflexivity.
Defined.

Lemma queue_is_first_in_first_out_witness :
  (@Cache.popMany 3 "jobs"
     (@Cache.pushAll engine "jobs" [JStr "a"; JUndefined; JNum 3] emptyCache)).1
  = map (λ v, Cache.parse (@stored engine v)) [JStr "a"; JUndefined; JNum 3].
Proof.
  apply (@queue_is_first_in_first_out engine "jobs" [JStr "a"; JUndefined; JNum 3]
           emptyCache); reflexivity.
Defined.

Lemma peek_ends_with_next_pop_witness :
  Cache.peek "jobs" (Some 2) threeJobs
  = (Ok (drop (3 - Z.to_nat 2) [JStr "c"; JStr "b"; JStr "a"]), threeJobs).
Proof.
  apply (peek_ends_with_next_pop "jobs" (Some 2) threeJobs
           [JStr "c"; JStr "b"; JStr "a"]);
    try reflexivity; try discriminate; repeat constructor.
Defined.
End FurtherExamples.
